(* ===== verification/_CoqProject ===== *)
-Q . S2P
Prelude.v
Rx.v
Actions.v
Correlator.v
Semantics.v
Outcome.v
Aggregate.v
ValueTypes.v
Refinement.v
Properties.v
OperatorSpec.v
Scenarios.v
