(* ===== verification/Prelude.v ===== *)
(** * A verification of [aggregate] (TradeMe/ngrx, src/aggregate/aggregate.ts)

    ** The program

    [aggregate(action1$, action2$, failAction$)] is an RxJS operator for
    NgRx effects: applied to a stream of request actions, it waits, for
    each request, for the first action of [action1$] and the first action
    of [action2$] that are correlated with it, and emits them as a pair;
    if a correlated action of [failAction$] comes first, it errors with
    that action's [error].  Correlation ([filterAction], lines 23-26)
    compares the [correlationParams] of the two actions: equal
    [correlationId], and the response's [parentActionType] equal to the
    request's [type].  Per request, [getAggregatedActions] (lines 28-56)
    builds [race(forkJoin([a1$, a2$]), f$)], where [a1$], [a2$], [f$] are
    the three streams piped through [filter(filterAction)] and [first()]
    ([f$] then [switchMap]s to [_throw(b.error)]); the operator (lines
    58-60) is [switchMap(getAggregatedActions)] over the request stream.

    ** The development, file by file

    - Prelude.v (this file): the emission monad [emit] (what one reactive
      step emits, and whether the subscriber stays open), its notation
      [x <- m ;; k] in [emit_scope], its laws, the fold [feed] that hands a
      list of notifications to a handler, and the hint databases.
    - Rx.v: RxJS 5.5 as step machines.  An [Observable] is a record of
      [obs_subscribe] and [obs_next] (one event of the bus); [guarded]
      models [Subscriber.isStopped].  The operators [hot] (a view of the
      bus that completes at its end, [bus_end]), [filter],
      [first], [forkJoin], [race], [switchMap] and [throwError] are
      library code (not under src/) and are modelled from RxJS's
      documented semantics.  Children are stepped in subscription order
      and a subscription made during an event does not receive it, which
      is how a [Subject] (the NgRx [Actions] bus) delivers.  A check of
      the model: every subscription respects the Observable contract
      ([run_well_terminated]).
    - Actions.v: the action shapes (lines 9-11) as the records
      [CorrelationParams] and the classes [AggregatableAction],
      [FailActionForAggregation]; [filterAction] with JavaScript's [===]
      on optional strings; an NgRx action record [StoreAction] and [ofType]
      for concrete scenarios.
    - Correlator.v: the operator on hot streams as one step function,
      the abstract machine: [Phase] (listening with at most one open
      [Window], failed, or completed), [window_step] (the [a1$] slot, the
      [a2$] slot, then [f$]), [end_step] (the end of the bus: the output
      completes if no window is open, and errors with [EmptyError] if one
      is), [correlator_step] (a request replaces the window).
    - Semantics.v: the same machine as a small-step relation
      [correlator_rel], one rule per branch of the code, and its closure
      [correlator_steps]; the invariant of the reachable phases
      ([phase_wf]: an open window is never already joined, and
      [phase_output]: no terminal notification while listening, exactly
      one, last, once failed or completed) is proved by rule induction
      ([correlator_steps_invariant]).
    - Outcome.v: the declarative specification of one window:
      [window_outcome] decides from the positions of the first correlated
      action on each stream; [window_run_outcome] proves that the machine
      meets it.
    - Aggregate.v: [a1_stream], [a2_stream], [f_stream],
      [getAggregatedActions] and [aggregate], composed from Rx.v exactly
      as the source pipes them.
    - ValueTypes.v: a refinement typing of observables on arbitrary
      sources ([obs_inv]: the values emitted satisfy a predicate, under a
      state invariant); [filter], [first], [forkJoin], [race] and the
      [switchMap] to [_throw] each transport it, so the window only emits
      pairs of actions correlated with its request, whatever its sources
      do ([window_values_correlated]).
    - Refinement.v: the simulation [embed_phase] from machine phases to
      the states of the composed subscription, proved operator by
      operator, and [aggregate_refines_correlator]: on every sequence of
      bus events the composed operator emits exactly what the machine
      emits.  On the concrete RxJS states: every state is the image of a
      well-formed phase ([aggregate_state_typed]), and the machine phase
      is read back from the RxJS state by [abstract_state]
      ([aggregate_state_readback]).
    - Properties.v: the properties of the operator, proved on the machine
      and transferred: the window specification
      ([aggregate_request_outcome]), join in channel order
      ([aggregate_join]), fail-fast ([aggregate_fail_fast]), waiting with
      no timeout ([aggregate_waits]), at most one outcome
      ([aggregate_at_most_one]), isolation from uncorrelated actions
      ([aggregate_isolation]), a new request discards the open window
      ([aggregate_switch_discards]), and once a request has its outcome
      no subscription to the three response streams is left live
      ([aggregate_releases_subscriptions], on the concrete RxJS states,
      through [live_subscriptions] of Refinement.v).  At the end of the
      bus: a request still waiting errors with [EmptyError]
      ([aggregate_end_in_flight]), a joined one is followed by the
      completion ([aggregate_completes_after_join]).  With the same
      stream for both successes, the first correlated response completes
      the join as [(a, a)] ([aggregate_same_stream_join]); a request without
      [correlationParams] is never answered
      ([aggregate_unparameterised_request_waits]).
    - OperatorSpec.v: a stateless specification of the whole operator
      ([aggregate_spec]): the events cut into request segments
      ([segments], a right fold), each segment resolved by its window
      specification, the outcomes concatenated and cut after the first
      error, the end of the bus adding [OComplete] or [EmptyError].
      [aggregate_meets_spec]: the composed operator emits exactly
      [aggregate_spec] on every sequence of events; in particular an
      error ends the output, and no later request gets an outcome.
    - Scenarios.v: the operator on an NgRx bus of [BusEvent]s (a
      dispatched action, or the completion of the [Actions] stream;
      [ofType("LOAD")] etc.),
      the scenarios of the specification evaluated by [reflexivity], and
      an instance of every property with hypotheses.

    ** What the theorems show, and what the code does

    The join, fail-fast, isolation and single-outcome properties of the
    specification hold.  Three behaviours differ from the specification:
    the operator uses [switchMap], so a request arriving while another is
    open discards it (the specification asks for concurrent windows);
    [filterAction] matches when neither action has a [correlationId]
    ([undefined === undefined]); and a failure errors the whole output
    stream, so no later request gets an outcome.  When one event both
    completes the join and is a correlated failure, the join wins.  When
    the [Actions] stream completes, a request still waiting gets
    [EmptyError] from [first()], an outcome the specification does not
    name.  When both success streams deliver the same action, one
    response counts for both.  A failure action without [error] makes the
    operator error with [undefined].

    ** Bounds and what is not modelled

    There is no fuel: every definition is structural over the finite
    sequence of bus events, so the theorems hold for sequences of any
    length.  The four input streams are hot views of one bus (the NgRx
    [Actions] stream) and complete together on the event [bus_end]: the
    request stream first (it is subscribed first), then the streams of
    the open window.  A response stream that completes on its own, before
    the others, is not modelled: in an effect all four are [ofType] views
    of the same [Actions] stream, and a hot stream completed before a
    window subscribes would need subscription-time state the step
    machines do not carry.  Throwing predicates,
    schedulers, and how the output actions are dispatched back to the
    store are not modelled.  [aggregate] has exactly two success streams,
    as in the source.  What [forkJoin] and [race] emit is characterised
    on hot sources only (through the refinement); on arbitrary sources
    the typing of ValueTypes.v bounds which values they can emit.

    ** Plan for the development

    Done: the action shapes and correlation test, the Rx operators used,
    the composition of [aggregate], the correlator machine, the
    refinement between them, the window specification, the end of the
    bus, the step-relation semantics, the typing of the operators, the
    declarative specification of the whole operator, the same-stream tie
    and the properties above.  What remains is outside [aggregate.ts]:
    the exact emissions of [forkJoin] and [race] on arbitrary sources
    (library code, characterised here by typing), and the
    effect's output dispatched back to the bus (framework code of
    [@ngrx/effects]). *)

From stdpp Require Import base list option.

(** ** The emission monad

    Every reactive step of the development (a subscription, or the arrival
    of one event at a subscriber) does two things: it emits a finite list
    of notifications downstream, and it either leaves the subscriber alive
    in a new state or closes it.  [emit St O] is that outcome: [(Some s, out)]
    means "emitted [out], still alive in state [s]"; [(None, out)] means
    "emitted [out], then closed (unsubscribed)".  Sequencing two steps
    concatenates their emissions and stops at the first one that closes. *)

Definition emit (St O : Type) : Type := (option St * list O)%type.

Definition ret {St O} (s : St) : emit St O := (Some s, []).
Definition tell {St O} (s : St) (out : list O) : emit St O := (Some s, out).
Definition halt {St O} (out : list O) : emit St O := (None, out).

Definition ebind {A B O} (m : emit A O) (k : A -> emit B O) : emit B O :=
  match m with
  | (Some a, o1) => let '(r, o2) := k a in (r, o1 ++ o2)
  | (None, o1) => (None, o1)
  end.

Declare Scope emit_scope.
Delimit Scope emit_scope with emit.
Notation "x <- m ;; k" := (ebind m (fun x => k))
  (at level 100, m at next level, right associativity) : emit_scope.
Open Scope emit_scope.

(** [feed h s ns] hands the notifications [ns] one by one to the handler
    [h], as a subscriber receives what its source emits; it stops at the
    first notification after which the handler closes. *)
Fixpoint feed {St N O} (h : St -> N -> emit St O) (s : St) (ns : list N)
  : emit St O :=
  match ns with
  | [] => ret s
  | n :: ns' => s' <- h s n ;; feed h s' ns'
  end.

(** Hint databases of the development: [rx] for the operator lemmas of
    Rx.v, [correlator] for rewriting with the equations of the correlator
    machine. *)
Create HintDb rx discriminated.
Create Rewrite HintDb correlator.

(** The monad laws and the fold laws of [feed]. *)

Lemma ebind_ret_l {A B O} (a : A) (k : A -> emit B O) :
  ebind (ret a) k = k a.
Proof. unfold ebind, ret. destruct (k a). by rewrite app_nil_l. Qed.

Lemma ebind_ret_r {A O} (m : emit A O) : ebind m ret = m.
Proof. destruct m as [[a|] o]; simpl; by rewrite ?app_nil_r. Qed.

Lemma ebind_tell {A B O} (a : A) (o : list O) (k : A -> emit B O) :
  ebind (tell a o) k = let '(r, o2) := k a in (r, o ++ o2).
Proof. reflexivity. Qed.

Lemma ebind_halt {A B O} (o : list O) (k : A -> emit B O) :
  ebind (halt o) k = halt o.
Proof. reflexivity. Qed.

Lemma ebind_assoc {A B C O} (m : emit A O) (k : A -> emit B O)
      (k' : B -> emit C O) :
  ebind (ebind m k) k' = ebind m (fun a => ebind (k a) k').
Proof.
  destruct m as [[a|] o1]; simpl; [|done].
  destruct (k a) as [[b|] o2]; simpl; [|done].
  destruct (k' b) as [r o3]. by rewrite app_assoc.
Qed.

Lemma feed_nil {St N O} (h : St -> N -> emit St O) s : feed h s [] = ret s.
Proof. reflexivity. Qed.

Lemma feed_cons {St N O} (h : St -> N -> emit St O) s n ns :
  feed h s (n :: ns) = ebind (h s n) (fun s' => feed h s' ns).
Proof. reflexivity. Qed.

Lemma ebind_ext {A B O} (m : emit A O) (k k' : A -> emit B O) :
  (forall a, k a = k' a) -> ebind m k = ebind m k'.
Proof. intros Hk. destruct m as [[a|] o]; simpl; [by rewrite Hk|done]. Qed.

Lemma feed_app {St N O} (h : St -> N -> emit St O) s l1 l2 :
  feed h s (l1 ++ l2) = ebind (feed h s l1) (fun s' => feed h s' l2).
Proof.
  revert s. induction l1 as [|n l1 IH]; intros s.
  - by rewrite app_nil_l, feed_nil, ebind_ret_l.
  - rewrite <- app_comm_cons, !feed_cons, ebind_assoc.
    apply ebind_ext. intros a. apply IH.
Qed.
