(* ===== verification/Rx.v ===== *)
(** * Rx: the RxJS 5.5 operators that [aggregate] composes

    The observables of the program are hot streams on one event bus (the
    NgRx [Actions] stream).  An observable is modelled as a step machine:
    [obs_subscribe] is what happens when it is subscribed (its initial
    state and what it emits synchronously), [obs_next] what happens when
    one event of the bus arrives.  Both return an [emit]: the
    notifications emitted, and [None] when the observable closes.

    Every subscriber of RxJS ignores what a source emits after an error or
    a completion ([Subscriber.isStopped]); [guarded] models that guard, and
    [sub_open]/[sub_next] drive a child subscription through it.

    The operators are translated from the RxJS 5.5 classes they stand for
    ([FilterSubscriber], [FirstSubscriber], [ForkJoinSubscriber],
    [RaceSubscriber], [SwitchMapSubscriber], [ErrorObservable]); they are
    library code, not code of the repository, and are modelled from their
    documented behaviour.  Within one event, children are visited in the
    order they were subscribed, which is the order in which the bus
    (a [Subject]) delivers an event to its observers; a child subscribed
    while an event is being delivered does not receive that event (the
    [Subject] delivers to a copy of its observer list).

    The lemma at the end holds for arbitrary sources: what a subscriber
    receives respects the Observable contract. *)

From stdpp Require Import base list option.
From S2P Require Import Prelude.

Inductive RxError (V : Type) : Type :=
| EmptyError
| Thrown (v : V).
Arguments EmptyError {V}.
Arguments Thrown {V} v.

(** RxJS [Notification]: [next], [error] or [complete]. *)
Inductive Notification (V X : Type) : Type :=
| ONext (x : X)
| OError (e : RxError V)
| OComplete.
Arguments ONext {V X} x.
Arguments OError {V X} e.
Arguments OComplete {V X}.

Record Observable (Ev V S X : Type) : Type := mkObservable {
  obs_subscribe : emit S (Notification V X);
  obs_next : S -> Ev -> emit S (Notification V X)
}.
Arguments mkObservable {Ev V S X} _ _.
Arguments obs_subscribe {Ev V S X} _.
Arguments obs_next {Ev V S X} _ _ _.

Section Rx.
Context {Ev V : Type}.
Local Abbreviation Notif := (Notification V).
Local Abbreviation Obs := (Observable Ev V).

Definition is_terminal {X} (n : Notif X) : bool :=
  match n with ONext _ => false | _ => true end.

Definition is_next {X} (n : Notif X) : bool :=
  match n with ONext _ => true | _ => false end.

(** [cut ns]: the prefix of [ns] up to and including its first terminal
    notification, and whether there was one. *)
Fixpoint cut {X} (ns : list (Notif X)) : list (Notif X) * bool :=
  match ns with
  | [] => ([], false)
  | n :: ns' =>
      if is_terminal n then ([n], true)
      else let '(r, t) := cut ns' in (n :: r, t)
  end.

Definition guarded {S X} (m : emit S (Notif X)) : emit S (Notif X) :=
  let '(r, ns) := m in
  let '(ns', stop) := cut ns in
  (if stop then None else r, ns').

Definition sub_open {S X} (o : Obs S X) : emit S (Notif X) :=
  guarded (obs_subscribe o).

Definition sub_next {S X} (o : Obs S X) (c : option S) (e : Ev)
  : emit S (Notif X) :=
  match c with
  | None => (None, [])
  | Some s => guarded (obs_next o s e)
  end.

(** ** Sources *)

(** A hot stream of the bus ([Actions] piped through [ofType], or any
    [Subject]): it emits [x] when the event projects to [x], and completes
    (then closes) on the event [fin] marks as the end of the bus. *)
Definition hot {X} (fin : Ev -> bool) (p : Ev -> option X) : Obs unit X :=
  mkObservable (ret tt)
    (fun _ e =>
       if fin e then halt [OComplete]
       else tell tt (match p e with Some x => [ONext x] | None => [] end)).

(** What [hot q] piped through [filter(p)] delivers on one event. *)
Definition select {X} (p : X -> bool) (q : Ev -> option X) (e : Ev)
  : option X :=
  match q e with
  | Some x => if p x then Some x else None
  | None => None
  end.

(** [_throw(v)] ([ErrorObservable]): errors with [v] when subscribed. *)
Definition throwError {Y} (v : V) : Obs unit Y :=
  mkObservable (halt [OError (Thrown v)]) (fun s _ => ret s).

(** ** [filter(p)] *)
Definition filter_notif {X} (p : X -> bool) (n : Notif X) : bool :=
  match n with ONext x => p x | _ => true end.

Definition filter_react {S X} (p : X -> bool) (m : emit S (Notif X))
  : emit S (Notif X) :=
  let '(r, ns) := guarded m in (r, List.filter (filter_notif p) ns).

Definition filter {S X} (p : X -> bool) (o : Obs S X) : Obs S X :=
  mkObservable (filter_react p (obs_subscribe o))
    (fun s e => filter_react p (obs_next o s e)).

(** ** [first()] (no predicate, no default value) *)
Definition first_emit {X} (n : Notif X) : list (Notif X) :=
  match n with
  | ONext x => [ONext x; OComplete]
  | OError err => [OError err]
  | OComplete => [OError EmptyError]
  end.

Definition first_react {S X} (m : emit S (Notif X)) : emit S (Notif X) :=
  match guarded m with
  | (r, []) => (r, [])
  | (_, n :: _) => halt (first_emit n)
  end.

Definition first {S X} (o : Obs S X) : Obs S X :=
  mkObservable (first_react (obs_subscribe o))
    (fun s e => first_react (obs_next o s e)).

(** ** [forkJoin([o1, o2])] *)
Record ForkJoinState (S1 S2 A B : Type) : Type := mkFJ {
  fj_sub1 : option S1;
  fj_sub2 : option S2;
  fj_value1 : option A;
  fj_value2 : option B;
  fj_completed : nat
}.
#[global] Arguments mkFJ {S1 S2 A B} _ _ _ _ _.
#[global] Arguments fj_sub1 {S1 S2 A B} _.
#[global] Arguments fj_sub2 {S1 S2 A B} _.
#[global] Arguments fj_value1 {S1 S2 A B} _.
#[global] Arguments fj_value2 {S1 S2 A B} _.
#[global] Arguments fj_completed {S1 S2 A B} _.

Section ForkJoin.
Context {S1 S2 A B : Type}.
Local Abbreviation FJ := (ForkJoinState S1 S2 A B).

(** [notifyComplete]: one more source completed; emit the pair and
    complete once both have, or complete at once when the source had no
    value. *)
Definition fj_complete (has_value : bool) (st : FJ) : emit FJ (Notif (A * B)) :=
  if negb has_value then halt [OComplete]
  else if Nat.eqb (fj_completed st) 2 then
    match fj_value1 st, fj_value2 st with
    | Some a, Some b => halt [ONext (a, b); OComplete]
    | _, _ => halt [OComplete]
    end
  else ret st.

Definition fj_handle1 (st : FJ) (n : Notif A) : emit FJ (Notif (A * B)) :=
  match n with
  | ONext a => ret (mkFJ (fj_sub1 st) (fj_sub2 st) (Some a) (fj_value2 st)
                         (fj_completed st))
  | OError err => halt [OError err]
  | OComplete =>
      fj_complete (bool_decide (is_Some (fj_value1 st)))
        (mkFJ (fj_sub1 st) (fj_sub2 st) (fj_value1 st) (fj_value2 st)
              (S (fj_completed st)))
  end.

Definition fj_handle2 (st : FJ) (n : Notif B) : emit FJ (Notif (A * B)) :=
  match n with
  | ONext b => ret (mkFJ (fj_sub1 st) (fj_sub2 st) (fj_value1 st) (Some b)
                         (fj_completed st))
  | OError err => halt [OError err]
  | OComplete =>
      fj_complete (bool_decide (is_Some (fj_value2 st)))
        (mkFJ (fj_sub1 st) (fj_sub2 st) (fj_value1 st) (fj_value2 st)
              (S (fj_completed st)))
  end.

Definition fj_set1 (st : FJ) (c : option S1) : FJ :=
  mkFJ c (fj_sub2 st) (fj_value1 st) (fj_value2 st) (fj_completed st).
Definition fj_set2 (st : FJ) (c : option S2) : FJ :=
  mkFJ (fj_sub1 st) c (fj_value1 st) (fj_value2 st) (fj_completed st).

Definition forkJoin (o1 : Obs S1 A) (o2 : Obs S2 B) : Obs FJ (A * B) :=
  mkObservable
    (let '(c1, ns1) := sub_open o1 in
     st <- feed fj_handle1 (mkFJ c1 None None None 0) ns1 ;;
     let '(c2, ns2) := sub_open o2 in
     feed fj_handle2 (fj_set2 st c2) ns2)
    (fun st e =>
       let '(c1, ns1) := sub_next o1 (fj_sub1 st) e in
       st1 <- feed fj_handle1 (fj_set1 st c1) ns1 ;;
       let '(c2, ns2) := sub_next o2 (fj_sub2 st1) e in
       feed fj_handle2 (fj_set2 st1 c2) ns2).
End ForkJoin.

(** ** [race(o1, o2)] *)
Record RaceState (S1 S2 : Type) : Type := mkRace {
  race_sub1 : option S1;
  race_sub2 : option S2;
  race_hasFirst : bool
}.
#[global] Arguments mkRace {S1 S2} _ _ _.
#[global] Arguments race_sub1 {S1 S2} _.
#[global] Arguments race_sub2 {S1 S2} _.
#[global] Arguments race_hasFirst {S1 S2} _.

Section Race.
Context {S1 S2 X : Type}.
Local Abbreviation RS := (RaceState S1 S2).

(** [notifyNext]: the first value picks the winner and unsubscribes the
    other source; errors and completions are passed on as they come. *)
Definition race_handle1 (st : RS) (n : Notif X) : emit RS (Notif X) :=
  match n with
  | ONext x =>
      if race_hasFirst st then tell st [ONext x]
      else tell (mkRace (race_sub1 st) None true) [ONext x]
  | OError err => halt [OError err]
  | OComplete => halt [OComplete]
  end.

Definition race_handle2 (st : RS) (n : Notif X) : emit RS (Notif X) :=
  match n with
  | ONext x =>
      if race_hasFirst st then tell st [ONext x]
      else tell (mkRace None (race_sub2 st) true) [ONext x]
  | OError err => halt [OError err]
  | OComplete => halt [OComplete]
  end.

Definition race (o1 : Obs S1 X) (o2 : Obs S2 X) : Obs RS X :=
  mkObservable
    (let '(c1, ns1) := sub_open o1 in
     st <- feed race_handle1 (mkRace c1 None false) ns1 ;;
     if race_hasFirst st then ret st
     else let '(c2, ns2) := sub_open o2 in
          feed race_handle2 (mkRace (race_sub1 st) c2 false) ns2)
    (fun st e =>
       let '(c1, ns1) := sub_next o1 (race_sub1 st) e in
       st1 <- feed race_handle1
                (mkRace c1 (race_sub2 st) (race_hasFirst st)) ns1 ;;
       let '(c2, ns2) := sub_next o2 (race_sub2 st1) e in
       feed race_handle2 (mkRace (race_sub1 st1) c2 (race_hasFirst st1)) ns2).
End Race.

(** ** [switchMap(f)] *)
Record SwitchMapState (S X T : Type) : Type := mkSwitch {
  sw_outer : option S;
  sw_stopped : bool;
  sw_inner : option (X * T)
}.
#[global] Arguments mkSwitch {S X T} _ _ _.
#[global] Arguments sw_outer {S X T} _.
#[global] Arguments sw_stopped {S X T} _.
#[global] Arguments sw_inner {S X T} _.

Section SwitchMap.
Context {S X T Y : Type}.
Variable f : X -> Obs T Y.
Local Abbreviation SW := (SwitchMapState S X T).

Definition sw_with_inner (st : SW) (x : X) (c : option T) : SW :=
  mkSwitch (sw_outer st) (sw_stopped st) (option_map (pair x) c).

(** [notifyNext], [notifyError], [notifyComplete] of the inner
    subscription. *)
Definition sw_inner_handle (st : SW) (n : Notif Y) : emit SW (Notif Y) :=
  match n with
  | ONext y => tell st [ONext y]
  | OError err => halt [OError err]
  | OComplete =>
      if sw_stopped st then halt [OComplete]
      else ret (mkSwitch (sw_outer st) false None)
  end.

(** [_next] (unsubscribe the current inner, subscribe [f x]), [_error]
    and [_complete] of the outer subscription. *)
Definition sw_outer_handle (st : SW) (n : Notif X) : emit SW (Notif Y) :=
  match n with
  | ONext x =>
      let '(c, ns) := sub_open (f x) in
      feed sw_inner_handle (sw_with_inner st x c) ns
  | OError err => halt [OError err]
  | OComplete =>
      match sw_inner st with
      | None => halt [OComplete]
      | Some _ => ret (mkSwitch (sw_outer st) true (sw_inner st))
      end
  end.

Definition sw_step_inner (st : SW) (e : Ev) : emit SW (Notif Y) :=
  match sw_inner st with
  | None => ret st
  | Some (x, t) =>
      let '(c, ns) := sub_next (f x) (Some t) e in
      feed sw_inner_handle (sw_with_inner st x c) ns
  end.

Definition switchMap (o : Obs S X) : Obs SW Y :=
  mkObservable
    (let '(c, ns) := sub_open o in
     feed sw_outer_handle (mkSwitch c false None) ns)
    (fun st e =>
       let '(c, ns) := sub_next o (sw_outer st) e in
       st1 <- feed sw_outer_handle (mkSwitch c (sw_stopped st) (sw_inner st)) ns ;;
       if existsb is_next ns then ret st1 else sw_step_inner st1 e).
End SwitchMap.

(** ** Running a subscription over a sequence of bus events *)
Fixpoint run_from {S X} (o : Obs S X) (c : option S) (tr : list Ev)
  : list (Notif X) :=
  match tr with
  | [] => []
  | e :: tr' => let '(c', ns) := sub_next o c e in ns ++ run_from o c' tr'
  end.

Definition run {S X} (o : Obs S X) (tr : list Ev) : list (Notif X) :=
  let '(c, ns) := sub_open o in ns ++ run_from o c tr.

(** The state of the subscription after the events ([None]: closed). *)
Fixpoint state_from {S X} (o : Obs S X) (c : option S) (tr : list Ev) : option S :=
  match tr with
  | [] => c
  | e :: tr' => state_from o (fst (sub_next o c e)) tr'
  end.

Definition run_state {S X} (o : Obs S X) (tr : list Ev) : option S :=
  state_from o (fst (sub_open o)) tr.

(** A [switchMap] whose outer subscription is open and has no inner one. *)
Definition switch_idle {X T} : SwitchMapState unit X T :=
  mkSwitch (Some tt) false None.

(** The Observable contract: nothing follows an error or a completion. *)

Fixpoint well_terminated {X} (ns : list (Notif X)) : bool :=
  match ns with
  | [] => true
  | n :: ns' =>
      if is_terminal n then (match ns' with [] => true | _ :: _ => false end)
      else well_terminated ns'
  end.

Definition no_terminal {X} (ns : list (Notif X)) : bool :=
  forallb (fun n => negb (is_terminal n)) ns.

(** ** Operator lemmas for hot sources *)

Lemma sub_next_closed {S X} (o : Obs S X) e : sub_next o None e = (None, []).
Proof. reflexivity. Qed.

Lemma sub_next_open {S X} (o : Obs S X) s e :
  sub_next o (Some s) e = guarded (obs_next o s e).
Proof. reflexivity. Qed.

Lemma sub_open_first_hot {X} fin (p : X -> bool) (q : Ev -> option X) :
  sub_open (first (filter p (hot fin q))) = (Some tt, []).
Proof. reflexivity. Qed.

(** [hot q |> filter(p) |> first()] stays silent until the first selected
    value, then emits it, completes and closes; if the bus ends first, it
    errors with [EmptyError]. *)
Lemma sub_next_first_hot {X} fin (p : X -> bool) (q : Ev -> option X) e :
  sub_next (first (filter p (hot fin q))) (Some tt) e =
  if fin e then (None, [OError EmptyError]) else
  match select p q e with
  | Some x => (None, [ONext x; OComplete])
  | None => (Some tt, [])
  end.
Proof.
  unfold select. cbn. destruct (fin e); [done|].
  destruct (q e) as [x|]; [|done]. cbn. by destruct (p x).
Qed.

Lemma sub_open_throw_first_hot {X Y} fin (g : X -> V) (p : X -> bool)
    (q : Ev -> option X) :
  sub_open (switchMap (Y:=Y) (fun b => throwError (g b)) (first (filter p (hot fin q))))
  = (Some switch_idle, []).
Proof. reflexivity. Qed.

(** [hot q |> filter(p) |> first() |> switchMap(b => _throw(g b))] errors
    with [g x] on the first selected [x], and with [EmptyError] if the bus
    ends first. *)
Lemma sub_next_throw_first_hot {X Y} fin (g : X -> V) (p : X -> bool)
    (q : Ev -> option X) e :
  sub_next (switchMap (Y:=Y) (fun b => throwError (g b)) (first (filter p (hot fin q))))
    (Some switch_idle) e =
  if fin e then (None, [OError EmptyError]) else
  match select p q e with
  | Some x => (None, [OError (Thrown (g x))])
  | None => (Some switch_idle, [])
  end.
Proof.
  unfold select. cbn. destruct (fin e); [done|].
  destruct (q e) as [x|]; [|done]. cbn. by destruct (p x).
Qed.

Lemma cut_spec {X} (ns : list (Notif X)) :
  well_terminated (fst (cut ns)) = true /\
  (snd (cut ns) = false -> no_terminal (fst (cut ns)) = true).
Proof.
  induction ns as [|n ns [IHw IHn]]; [done|]. cbn.
  destruct (is_terminal n) eqn:Ht; cbn; [rewrite Ht; by split|].
  destruct (cut ns) as [r t]; cbn in *. rewrite Ht. cbn. auto.
Qed.

Lemma well_terminated_app {X} (l1 l2 : list (Notif X)) :
  no_terminal l1 = true -> well_terminated l2 = true ->
  well_terminated (l1 ++ l2) = true.
Proof.
  induction l1 as [|n l1 IH]; [done|]. cbn.
  destruct (is_terminal n); [done|]. auto.
Qed.

Lemma sub_next_spec {S X} (o : Obs S X) c e :
  well_terminated (snd (sub_next o c e)) = true /\
  (is_Some (fst (sub_next o c e)) -> no_terminal (snd (sub_next o c e)) = true).
Proof.
  destruct c as [s|]; [|by split; [|intros []]].
  cbn. destruct (obs_next o s e) as [r ns].
  pose proof (cut_spec ns) as [Hw Hn]. cbn.
  destruct (cut ns) as [ns' []]; cbn in *; split; auto. by intros [].
Qed.

Lemma run_from_closed {S X} (o : Obs S X) tr : run_from o None tr = [].
Proof. by induction tr. Qed.

(** What a subscriber receives respects the Observable contract: at most
    one error or completion, and nothing after it. *)
Lemma run_from_well_terminated {S X} (o : Obs S X) c tr :
  well_terminated (run_from o c tr) = true.
Proof.
  revert c. induction tr as [|e tr IH]; intros c; [done|]. cbn.
  pose proof (sub_next_spec o c e) as [Hw Hn].
  destruct (sub_next o c e) as [[s'|] ns]; cbn in *.
  - apply well_terminated_app; auto.
  - by rewrite run_from_closed, app_nil_r.
Qed.

Theorem run_well_terminated {S X} (o : Obs S X) tr :
  well_terminated (run o tr) = true.
Proof.
  unfold run, sub_open.
  destruct (obs_subscribe o) as [r ns]; cbn.
  pose proof (cut_spec ns) as [Hw Hn].
  destruct (cut ns) as [ns' []]; cbn in *.
  - by rewrite run_from_closed, app_nil_r.
  - apply well_terminated_app; [by apply Hn|apply run_from_well_terminated].
Qed.

End Rx.
