(* ===== verification/Actions.v ===== *)
(** * Actions: the event shapes of [aggregate.ts] and its correlation test

    [CorrelationParams], [AggregatableAction] and
    [FailActionForAggregation] (aggregate.ts, lines 9-11) are structural
    TypeScript types: any action with a [type] and optional
    [correlationParams] qualifies.  They are modelled as type classes, so
    that the request, the two responses and the failure can be of four
    different action types, as the type parameters of [aggregate] allow.
    [filterAction] (lines 23-26) is the correlation test, with
    JavaScript's [===] on optional strings as equality of [option string]
    ([undefined === undefined] holds). *)

From stdpp Require Import base list option strings.
From S2P Require Import Prelude.

(** [type CorrelationParams = { correlationId?: string,
    parentActionType?: string }] *)
Record CorrelationParams : Type := mkCorrelationParams {
  correlationId : option string;
  parentActionType : option string
}.

#[export] Instance CorrelationParams_eq_dec : EqDecision CorrelationParams.
Proof. solve_decision. Defined.

(** [type AggregatableAction = Action & { correlationParams?:
    CorrelationParams }]; [Action] of [@ngrx/store] has [type: string]. *)
Class AggregatableAction (A : Type) : Type := {
  action_type : A -> string;
  correlation_params : A -> option CorrelationParams
}.

(** [type FailActionForAggregation = Action & { error?: Error, ... }]. *)
Class FailActionForAggregation (A Err : Type) `{AggregatableAction A} : Type := {
  action_error : A -> option Err
}.

(** [filterAction(sourceAction, t)]: [t] answers [sourceAction] when
    both carry correlation parameters, the correlation ids are [===] and
    [t]'s [parentActionType] is [sourceAction.type].  A missing
    [correlationParams] on either side yields [undefined], which [filter]
    treats as false. *)
Definition filterAction {Src T : Type} `{AggregatableAction Src}
    `{AggregatableAction T} (sourceAction : Src) (t : T) : bool :=
  match correlation_params t, correlation_params sourceAction with
  | Some tp, Some sp =>
      bool_decide (correlationId tp = correlationId sp) &&
      bool_decide (parentActionType tp = Some (action_type sourceAction))
  | _, _ => false
  end.

(** ** A concrete action type: the actions of an NgRx store

    Used for the scenarios: one record type for every action of the bus,
    with an optional error payload. *)
Record StoreAction : Type := mkStoreAction {
  sa_type : string;
  sa_correlationParams : option CorrelationParams;
  sa_error : option string
}.

#[export] Instance StoreAction_eq_dec : EqDecision StoreAction.
Proof. solve_decision. Defined.

#[export] Instance StoreAction_aggregatable : AggregatableAction StoreAction := {
  action_type := sa_type;
  correlation_params := sa_correlationParams
}.

#[export] Instance StoreAction_fail : FailActionForAggregation StoreAction string := {
  action_error := sa_error
}.

(** [ofType(t)] of [@ngrx/effects]: the actions of the bus whose type is
    [t]. *)
Definition ofType (t : string) (a : StoreAction) : option StoreAction :=
  if bool_decide (sa_type a = t) then Some a else None.

(** ** The correlation test *)

(** C9: [filterAction] holds exactly when both actions carry correlation
    parameters, their correlation ids are equal as optional strings, and
    the response names the request's type as its parent. *)
Theorem filterAction_spec {Src T} `{AggregatableAction Src} `{AggregatableAction T}
    (s : Src) (t : T) :
  filterAction s t = true <->
  exists tp sp, correlation_params t = Some tp /\ correlation_params s = Some sp /\
    correlationId tp = correlationId sp /\
    parentActionType tp = Some (action_type s).
Proof.
  unfold filterAction.
  destruct (correlation_params t) as [tp|], (correlation_params s) as [sp|];
    rewrite ?andb_true_iff, ?bool_decide_eq_true; split;
    try (intros (? & ? & ? & ? & _); discriminate); try (intros ?; discriminate).
  - intros [Hi Hp]. by exists tp, sp.
  - intros (? & ? & [= <-] & [= <-] & Hi & Hp). done.
Qed.

(** C11: Fail closed on a missing [correlationParams], on either side. *)
Theorem filterAction_no_params {Src T} `{AggregatableAction Src} `{AggregatableAction T}
    (s : Src) (t : T) :
  correlation_params t = None \/ correlation_params s = None ->
  filterAction s t = false.
Proof.
  unfold filterAction. intros [-> | ->]; [done|].
  by destruct (correlation_params t).
Qed.

(** C10: But not on a missing [correlationId]: [undefined === undefined], so a
    response without a correlation id answers every request of its parent
    type that has no correlation id either. *)
Theorem filterAction_undefined_ids {Src T} `{AggregatableAction Src}
    `{AggregatableAction T} (s : Src) (t : T) tp sp :
  correlation_params t = Some tp -> correlation_params s = Some sp ->
  correlationId tp = None -> correlationId sp = None ->
  parentActionType tp = Some (action_type s) ->
  filterAction s t = true.
Proof.
  intros Ht Hs Hi Hj Hp. unfold filterAction. rewrite Ht, Hs, Hi, Hj, Hp.
  by rewrite !bool_decide_eq_true_2.
Qed.
