(* ===== verification/Correlator.v ===== *)
(** * Correlator: the matching window of [aggregate] as a state machine

    What the operator returned by [aggregate] (aggregate.ts, lines 13-61)
    does when its four inputs are hot streams of one event bus, written
    as one step function on an explicit state instead of a composition of
    operators.  The state is the [Phase] of the operator: listening with
    at most one open matching window ([switchMap] keeps one inner
    subscription), failed (an error has terminated the output), or completed
    (the bus has ended with no window open).  A
    [Window] holds the request it was opened for ([sourceAction]) and the
    first correlated action seen on each success stream (the value held by
    [first()] inside [forkJoin]).

    Refinement.v proves that the composition of Aggregate.v produces
    exactly the outputs of this machine; the properties of the operator
    are proved here, on the machine, and transferred. *)

From stdpp Require Import base list option.
From S2P Require Import Prelude Rx Actions.

Section Correlator.
Context {Ev Err Src A1 A2 F : Type}.
Context `{!AggregatableAction Src} `{!AggregatableAction A1}
        `{!AggregatableAction A2} {HF : AggregatableAction F}
        `{!FailActionForAggregation F Err}.

(** The four streams, as projections of a bus event. *)
Variable source : Ev -> option Src.
Variable action1 : Ev -> option A1.
Variable action2 : Ev -> option A2.
Variable failAction : Ev -> option F.
(** The end of the bus: every stream completes on this event. *)
Variable bus_end : Ev -> bool.

Local Abbreviation Out := (Notification (option Err) (A1 * A2)).

Record Window : Type := mkWindow {
  w_source : Src;
  w_a1 : option A1;
  w_a2 : option A2
}.

Inductive Phase : Type :=
| Listening (w : option Window)
| Failed
| Completed.

Definition window_open (r : Src) : Window := mkWindow r None None.

(** A correlated action of a stream: the stream emits it on this event
    and it passes [filterAction(sourceAction, a)]. *)
Definition correlated {X} `{!AggregatableAction X} (p : Ev -> option X)
    (r : Src) (e : Ev) : option X :=
  select (filterAction r) p e.

(** [first()] on a success stream: only the first correlated action
    fills the slot. *)
Definition fill1 (w : Window) (e : Ev) : Window :=
  match w_a1 w, correlated action1 (w_source w) e with
  | None, Some a => mkWindow (w_source w) (Some a) (w_a2 w)
  | _, _ => w
  end.

Definition fill2 (w : Window) (e : Ev) : Window :=
  match w_a2 w, correlated action2 (w_source w) e with
  | None, Some b => mkWindow (w_source w) (w_a1 w) (Some b)
  | _, _ => w
  end.

(** [forkJoin] emits once both slots are filled, in channel order. *)
Definition joined (w : Window) : option (A1 * A2) :=
  match w_a1 w, w_a2 w with
  | Some a, Some b => Some (a, b)
  | _, _ => None
  end.

(** One event seen by an open window: the [a1$] slot, then the [a2$]
    slot (the order of the subscriptions of [forkJoin]), then [f$]
    (subscribed last by [race]).  A completed join wins the race and
    closes the window; a correlated failure errors. *)
Definition window_step (w : Window) (e : Ev) : Phase * list Out :=
  let w1 := fill1 w e in
  match joined w1 with
  | Some p => (Listening None, [ONext p])
  | None =>
      let w2 := fill2 w1 e in
      match joined w2 with
      | Some p => (Listening None, [ONext p])
      | None =>
          match correlated failAction (w_source w) e with
          | Some b => (Failed, [OError (Thrown (action_error b))])
          | None => (Listening (Some w2), [])
          end
      end
  end.

(** The end of the bus.  The request stream completes first: with no
    window open, the output completes.  An open window then sees its
    unanswered [first()] complete without a value, which errors with
    [EmptyError]; [forkJoin], [race] and [switchMap] pass the error on. *)
Definition end_step (ow : option Window) : Phase * list Out :=
  match ow with
  | None => (Completed, [OComplete])
  | Some _ => (Failed, [OError EmptyError])
  end.

(** One event seen by the operator: a request opens a fresh window in
    place of the open one ([switchMap]); the new window does not see the
    event that opened it.  Once the output has errored or completed,
    nothing more happens. *)
Definition correlator_step (ph : Phase) (e : Ev) : Phase * list Out :=
  match ph with
  | Failed => (Failed, [])
  | Completed => (Completed, [])
  | Listening ow =>
      if bus_end e then end_step ow else
      match source e with
      | Some r => (Listening (Some (window_open r)), [])
      | None =>
          match ow with
          | None => (Listening None, [])
          | Some w => window_step w e
          end
      end
  end.

Fixpoint correlator_run (ph : Phase) (tr : list Ev) : list Out :=
  match tr with
  | [] => []
  | e :: tr' => let '(ph', out) := correlator_step ph e in
                out ++ correlator_run ph' tr'
  end.

(** The phase after a sequence of events. *)
Fixpoint correlator_final (ph : Phase) (tr : list Ev) : Phase :=
  match tr with
  | [] => ph
  | e :: tr' => correlator_final (fst (correlator_step ph e)) tr'
  end.

(** [first()] keeps the slot's first value: the filled slot is the old
    one if there was one, else what this event brings. *)
Definition slot_fill {X} (old new : option X) : option X :=
  match old with Some a => Some a | None => new end.

Definition listening (ph : Phase) : bool :=
  match ph with Listening _ => true | _ => false end.

(** Well-formed phases: an open window is never already joined. *)
Definition phase_wf (ph : Phase) : Prop :=
  match ph with
  | Listening (Some w) => joined w = None
  | _ => True
  end.

(** The slots of a window change; its request never does. *)
Lemma fill1_source (w : Window) e : w_source (fill1 w e) = w_source w.
Proof. unfold fill1. by destruct (w_a1 w), (correlated action1 (w_source w) e). Qed.

Lemma fill2_source (w : Window) e : w_source (fill2 w e) = w_source w.
Proof. unfold fill2. by destruct (w_a2 w), (correlated action2 (w_source w) e). Qed.

Lemma fill1_eq (w : Window) e :
  fill1 w e = mkWindow (w_source w)
                (slot_fill (w_a1 w) (correlated action1 (w_source w) e)) (w_a2 w).
Proof.
  unfold fill1. destruct w as [r [a|] b]; cbn; [done|].
  by destruct (correlated action1 r e).
Qed.

Lemma fill2_eq (w : Window) e :
  fill2 w e = mkWindow (w_source w) (w_a1 w)
                (slot_fill (w_a2 w) (correlated action2 (w_source w) e)).
Proof.
  unfold fill2. destruct w as [r a [b|]]; cbn; [done|].
  by destruct (correlated action2 r e).
Qed.

Lemma window_step_wf (w : Window) e : phase_wf (fst (window_step w e)).
Proof.
  unfold window_step. destruct (joined (fill1 w e)); [done|].
  destruct (joined (fill2 (fill1 w e) e)) eqn:Hj; [done|].
  by destruct (correlated failAction (w_source w) e).
Qed.

(** Invariant: every step of the machine keeps its phase well formed. *)
Lemma correlator_step_wf (ph : Phase) e :
  phase_wf ph -> phase_wf (fst (correlator_step ph e)).
Proof.
  intros _. destruct ph as [ow| |]; [|done..]. cbn.
  destruct (bus_end e); [by destruct ow|].
  destruct (source e); [done|].
  destruct ow as [w|]; [apply window_step_wf|done].
Qed.

Lemma correlator_final_wf (ph : Phase) tr :
  phase_wf ph -> phase_wf (correlator_final ph tr).
Proof.
  revert ph. induction tr as [|e tr IH]; intros ph Hwf; [done|].
  cbn. apply IH, correlator_step_wf, Hwf.
Qed.

Lemma correlator_run_app (ph : Phase) tr1 tr2 :
  correlator_run ph (tr1 ++ tr2) =
  correlator_run ph tr1 ++ correlator_run (correlator_final ph tr1) tr2.
Proof.
  revert ph. induction tr1 as [|e tr1 IH]; intros ph; [done|].
  cbn. destruct (correlator_step ph e) as [ph' out] eqn:E. cbn.
  by rewrite IH, app_assoc.
Qed.

Lemma correlator_final_app (ph : Phase) tr1 tr2 :
  correlator_final ph (tr1 ++ tr2) = correlator_final (correlator_final ph tr1) tr2.
Proof. revert ph. induction tr1 as [|e tr1 IH]; intros ph; [done|]. apply IH. Qed.

Lemma correlator_run_failed tr : correlator_run Failed tr = [].
Proof. by induction tr. Qed.

Lemma correlator_run_completed tr : correlator_run Completed tr = [].
Proof. by induction tr. Qed.

(** The machine fails only by emitting an error. *)
Lemma window_step_failed (w : Window) e :
  fst (window_step w e) = Failed ->
  exists b, snd (window_step w e) = [OError (Thrown (action_error b))].
Proof.
  unfold window_step. destruct (joined (fill1 w e)); [done|].
  destruct (joined (fill2 (fill1 w e) e)); [done|].
  destruct (correlated failAction (w_source w) e) as [b|]; [by exists b|done].
Qed.

(** A machine that emits nothing keeps listening. *)
Lemma correlator_final_silent (ph : Phase) tr :
  listening ph = true -> correlator_run ph tr = [] ->
  listening (correlator_final ph tr) = true.
Proof.
  revert ph. induction tr as [|e tr IH]; intros ph Hph Hrun; [done|].
  cbn in *. destruct (correlator_step ph e) as [ph' out] eqn:E. cbn [fst].
  apply app_eq_nil in Hrun as [-> Hrun]. apply IH; [|done].
  destruct ph as [[w|]| |]; cbn in E, Hph; try done;
    destruct (bus_end e); [simplify_eq| |simplify_eq|];
    destruct (source e); simplify_eq; try done.
  unfold window_step in E. repeat case_match; by simplify_eq.
Qed.

End Correlator.

#[export] Hint Rewrite @fill1_source @fill2_source : correlator.

Arguments Window : clear implicits.
Arguments Phase : clear implicits.
