(* ===== verification/Semantics.v ===== *)
(** * Semantics: the correlator machine as a step relation

    The small-step semantics of the operator of [aggregate] on hot
    streams, one rule per branch of [correlator_step] (Correlator.v):
    the end of the bus, a request ([switchMap] opening a window), an
    idle event, and for an open window the join on the [a1$] slot, the
    join on the [a2$] slot, the failure and the wait.  The invariant of
    the phases reached from the initial one is proved by rule induction
    on the closure [correlator_steps]; [correlator_run_steps] shows that
    every run of the machine is such a closure. *)

From stdpp Require Import base list option.
From S2P Require Import Prelude Rx Actions Correlator.

Section Semantics.
Context {Ev Err Src A1 A2 F : Type}.
Context `{!AggregatableAction Src} `{!AggregatableAction A1}
        `{!AggregatableAction A2} {HF : AggregatableAction F}
        `{!FailActionForAggregation F Err}.
Variable source : Ev -> option Src.
Variable action1 : Ev -> option A1.
Variable action2 : Ev -> option A2.
Variable failAction : Ev -> option F.
Variable bus_end : Ev -> bool.

Local Abbreviation W := (Window Src A1 A2).
Local Abbreviation P := (Phase Src A1 A2).
Local Abbreviation Out := (Notification (option Err) (A1 * A2)).

Inductive correlator_rel : P -> Ev -> P -> list Out -> Prop :=
| rel_end_idle e :
    bus_end e = true ->
    correlator_rel (Listening None) e Completed [OComplete]
| rel_end_window (w : W) e :
    bus_end e = true ->
    correlator_rel (Listening (Some w)) e Failed [OError EmptyError]
| rel_request ow e r :
    bus_end e = false -> source e = Some r ->
    correlator_rel (Listening ow) e (Listening (Some (window_open r))) []
| rel_idle e :
    bus_end e = false -> source e = None ->
    correlator_rel (Listening None) e (Listening None) []
| rel_join_a1 (w : W) e p :
    bus_end e = false -> source e = None ->
    joined (fill1 action1 w e) = Some p ->
    correlator_rel (Listening (Some w)) e (Listening None) [ONext p]
| rel_join_a2 (w : W) e p :
    bus_end e = false -> source e = None ->
    joined (fill1 action1 w e) = None ->
    joined (fill2 action2 (fill1 action1 w e) e) = Some p ->
    correlator_rel (Listening (Some w)) e (Listening None) [ONext p]
| rel_fail (w : W) e b :
    bus_end e = false -> source e = None ->
    joined (fill1 action1 w e) = None ->
    joined (fill2 action2 (fill1 action1 w e) e) = None ->
    correlated failAction (w_source w) e = Some b ->
    correlator_rel (Listening (Some w)) e Failed [OError (Thrown (action_error b))]
| rel_wait (w : W) e :
    bus_end e = false -> source e = None ->
    joined (fill1 action1 w e) = None ->
    joined (fill2 action2 (fill1 action1 w e) e) = None ->
    correlated failAction (w_source w) e = None ->
    correlator_rel (Listening (Some w)) e
      (Listening (Some (fill2 action2 (fill1 action1 w e) e))) []
| rel_failed e : correlator_rel Failed e Failed []
| rel_completed e : correlator_rel Completed e Completed [].

(** The closure, built at the end of the trace: the phase reached and
    everything emitted on the way. *)
Inductive correlator_steps (ph0 : P) : list Ev -> P -> list Out -> Prop :=
| steps_refl : correlator_steps ph0 [] ph0 []
| steps_snoc tr ph out e ph' o :
    correlator_steps ph0 tr ph out -> correlator_rel ph e ph' o ->
    correlator_steps ph0 (tr ++ [e]) ph' (out ++ o).

(** What the phase says about the output emitted so far: a listening
    operator has emitted no terminal notification, a failed one ended
    its output with an error, a completed one with [OComplete], and
    neither emitted a terminal notification before. *)
Definition phase_output (ph : P) (out : list Out) : Prop :=
  match ph with
  | Listening _ => no_terminal out = true
  | Failed => exists out0 err, out = out0 ++ [OError err] /\ no_terminal out0 = true
  | Completed => exists out0, out = out0 ++ [OComplete] /\ no_terminal out0 = true
  end.

Local Abbreviation step := (correlator_step source action1 action2 failAction bus_end).

Lemma correlator_step_rel ph e :
  correlator_rel ph e (fst (step ph e)) (snd (step ph e)).
Proof.
  destruct ph as [[w|]| |]; cbn; [| |constructor..];
    destruct (bus_end e) eqn:Hb; [by constructor| |by constructor|];
    destruct (source e) as [r|] eqn:Hs; try by constructor.
  unfold window_step.
  destruct (joined (fill1 action1 w e)) eqn:J1; [by eapply rel_join_a1|].
  destruct (joined (fill2 action2 (fill1 action1 w e) e)) eqn:J2;
    [by eapply rel_join_a2|].
  destruct (correlated failAction (w_source w) e) eqn:Jf;
    [by eapply rel_fail|by eapply rel_wait].
Qed.

Lemma correlator_steps_app ph0 tr ph out tr' ph' out' :
  correlator_steps ph0 tr ph out -> correlator_steps ph tr' ph' out' ->
  correlator_steps ph0 (tr ++ tr') ph' (out ++ out').
Proof.
  intros H1 H2. induction H2 as [|tr' ph1 out1 e ph2 o _ IH Hr].
  - by rewrite !app_nil_r.
  - rewrite !app_assoc. by eapply steps_snoc.
Qed.

Lemma correlator_steps_cons ph e ph1 o tr ph' out :
  correlator_rel ph e ph1 o -> correlator_steps ph1 tr ph' out ->
  correlator_steps ph (e :: tr) ph' (o ++ out).
Proof.
  intros Hr Hs. change (e :: tr) with ([e] ++ tr).
  eapply correlator_steps_app; [|done].
  rewrite <- (app_nil_l [e]), <- (app_nil_l o). by eapply steps_snoc; [constructor|].
Qed.

Lemma no_terminal_app {X} (l1 l2 : list (Notification (option Err) X)) :
  no_terminal (l1 ++ l2) = no_terminal l1 && no_terminal l2.
Proof. apply forallb_app. Qed.

(** One step of the relation keeps the phase well formed and in
    agreement with the output. *)
Lemma correlator_rel_output ph e ph' o out :
  correlator_rel ph e ph' o -> phase_wf ph -> phase_output ph out ->
  phase_wf ph' /\ phase_output ph' (out ++ o).
Proof.
  destruct 1; cbn; intros Hwf Hout; rewrite ?app_nil_r; split; try done;
    try (exists out; [split; done]); try (eexists out, _; split; done).
  all: by rewrite no_terminal_app, Hout.
Qed.

Lemma correlator_run_steps ph tr :
  correlator_steps ph tr
    (correlator_final source action1 action2 failAction bus_end ph tr)
    (correlator_run source action1 action2 failAction bus_end ph tr).
Proof.
  revert ph. induction tr as [|e tr IH]; intros ph; [constructor|].
  cbn. pose proof (correlator_step_rel ph e) as Hr.
  destruct (step ph e) as [ph1 o]. by eapply correlator_steps_cons.
Qed.

Lemma correlator_steps_output ph0 tr ph out0 out :
  correlator_steps ph0 tr ph out -> phase_wf ph0 -> phase_output ph0 out0 ->
  phase_wf ph /\ phase_output ph (out0 ++ out).
Proof.
  intros Hs Hwf Hout. induction Hs as [|tr ph out e ph' o _ [Hwf' Hout'] Hr].
  - by rewrite app_nil_r.
  - rewrite app_assoc. by eapply correlator_rel_output.
Qed.

(** The run of the machine from a well-formed phase agrees with the
    phase it reaches. *)
Lemma correlator_run_output ph tr out0 :
  phase_wf ph -> phase_output ph out0 ->
  phase_output (correlator_final source action1 action2 failAction bus_end ph tr)
    (out0 ++ correlator_run source action1 action2 failAction bus_end ph tr).
Proof. intros Hwf Hout. by eapply correlator_steps_output; [apply correlator_run_steps|..]. Qed.

(** C13: Invariant, by rule induction: every phase reachable from the
    initial one is well formed and agrees with what has been emitted: no
    terminal notification while listening, exactly one terminal
    notification, last, once failed (an error) or completed
    ([OComplete]). *)
Theorem correlator_steps_invariant tr ph out :
  correlator_steps (Listening None) tr ph out -> phase_wf ph /\ phase_output ph out.
Proof.
  induction 1 as [|tr ph out e ph' o _ [Hwf Hout] Hs]; [done|].
  by eapply correlator_rel_output.
Qed.

End Semantics.

