(* ===== verification/Outcome.v ===== *)
(** * Outcome: what one matching window resolves to, stated declaratively

    The abstract specification of a window: given the events that follow
    its opening, the outcome depends only on the position of the first
    correlated action of each stream.  The join completes at the later of
    the two first success hits; the window fails if the first correlated
    failure comes strictly before that (a failure on the very event that
    completes the join loses, since [f$] is the last subscription of the
    bus); a window that receives neither stays open and emits nothing.
    [window_run_outcome] proves that the machine of Correlator.v meets
    this specification on every sequence of events without a new
    request. *)

From stdpp Require Import base list option.
From S2P Require Import Prelude Rx Actions Correlator.

Section Outcome.
Context {Ev Err Src A1 A2 F : Type}.
Context `{!AggregatableAction Src} `{!AggregatableAction A1}
        `{!AggregatableAction A2} {HF : AggregatableAction F}
        `{!FailActionForAggregation F Err}.
Variable source : Ev -> option Src.
Variable action1 : Ev -> option A1.
Variable action2 : Ev -> option A2.
Variable failAction : Ev -> option F.
Variable bus_end : Ev -> bool.

Local Abbreviation W := (Window Src A1 A2).
Local Abbreviation P := (Phase Src A1 A2).
Local Abbreviation Out := (Notification (option Err) (A1 * A2)).
Local Abbreviation step := (correlator_step source action1 action2 failAction bus_end).
Local Abbreviation crun := (correlator_run source action1 action2 failAction bus_end).

(** The position and value of the first event on which [p] answers. *)
Fixpoint first_hit {X} (p : Ev -> option X) (tr : list Ev) : option (nat * X) :=
  match tr with
  | [] => None
  | e :: tr' =>
      match p e with
      | Some x => Some (0, x)
      | None => option_map (fun '(i, x) => (S i, x)) (first_hit p tr')
      end
  end.

Definition shift {X} (h : option (nat * X)) : option (nat * X) :=
  option_map (fun '(i, x) => (S i, x)) h.

(** A slot already filled counts as filled before the first event. *)
Definition slot_hit {X} (filled : option X) (p : Ev -> option X) (tr : list Ev)
  : option (nat * X) :=
  match filled with
  | Some a => Some (0, a)
  | None => first_hit p tr
  end.

(** When [forkJoin] emits, and what. *)
Definition join_time (w : W) (tr : list Ev) : option (nat * (A1 * A2)) :=
  match slot_hit (w_a1 w) (correlated action1 (w_source w)) tr,
        slot_hit (w_a2 w) (correlated action2 (w_source w)) tr with
  | Some (i1, a), Some (i2, b) => Some (Nat.max i1 i2, (a, b))
  | _, _ => None
  end.

Definition fail_time (w : W) (tr : list Ev) : option (nat * F) :=
  first_hit (correlated failAction (w_source w)) tr.

Definition decide_outcome (j : option (nat * (A1 * A2))) (k : option (nat * F))
  : list Out :=
  match j, k with
  | Some (tj, p), Some (tk, b) =>
      if Nat.ltb tk tj then [OError (Thrown (action_error b))] else [ONext p]
  | Some (_, p), None => [ONext p]
  | None, Some (_, b) => [OError (Thrown (action_error b))]
  | None, None => []
  end.

Definition window_outcome (w : W) (tr : list Ev) : list Out :=
  decide_outcome (join_time w tr) (fail_time w tr).

(** Events that neither bring a request nor end the bus. *)
Definition no_request (tr : list Ev) : Prop :=
  Forall (fun e => source e = None /\ bus_end e = false) tr.

(** ** Lemmas *)

Lemma first_hit_cons {X} (p : Ev -> option X) e tr :
  first_hit p (e :: tr) =
  match p e with Some x => Some (0, x) | None => shift (first_hit p tr) end.
Proof. reflexivity. Qed.

Lemma decide_outcome_shift j k :
  decide_outcome (shift j) (shift k) = decide_outcome j k.
Proof. by destruct j as [[tj p]|], k as [[tk b]|]. Qed.

(** Once the window is closed, a sequence without requests emits nothing. *)
Lemma crun_idle tr : no_request tr -> crun (Listening None) tr = [].
Proof.
  induction 1 as [|e tr [He Hb] _ IH]; [done|]. cbn. by rewrite Hb, He.
Qed.

Lemma crun_failed tr : crun Failed tr = [].
Proof. by induction tr. Qed.

(** An event that neither completes the join nor fails the window moves
    every hit one position later. *)
Lemma join_time_quiet (w : W) e tr :
  joined w = None ->
  joined (fill1 action1 w e) = None ->
  joined (fill2 action2 (fill1 action1 w e) e) = None ->
  join_time w (e :: tr) = shift (join_time (fill2 action2 (fill1 action1 w e) e) tr).
Proof.
  rewrite fill2_eq, fill1_eq. destruct w as [r a b].
  unfold join_time, slot_hit, joined; cbn [w_a1 w_a2 w_source].
  rewrite !first_hit_cons.
  destruct a as [a|], b as [b|], (correlated action1 r e) as [x|],
    (correlated action2 r e) as [y|]; cbn; try discriminate; intros _ _ _;
    destruct (first_hit (correlated action1 r) tr) as [[i1 x1]|],
      (first_hit (correlated action2 r) tr) as [[i2 x2]|];
    cbn; rewrite ?Nat.max_0_l, ?Nat.max_0_r; try done.
Qed.

(** An event that completes the join makes it complete at position 0. *)
Lemma join_time_now (w : W) e tr p :
  joined w = None ->
  (joined (fill1 action1 w e) = Some p \/
   joined (fill2 action2 (fill1 action1 w e) e) = Some p) ->
  join_time w (e :: tr) = Some (0, p).
Proof.
  rewrite fill2_eq, fill1_eq. destruct w as [r a b].
  unfold join_time, slot_hit, joined; cbn [w_a1 w_a2 w_source].
  rewrite !first_hit_cons.
  destruct a as [a|], b as [b|], (correlated action1 r e) as [x|],
    (correlated action2 r e) as [y|]; cbn; try discriminate;
    intros _ [Hp|Hp]; by simplify_eq.
Qed.

Lemma join_time_nil (w : W) : joined w = None -> join_time w [] = None.
Proof. unfold join_time, joined, slot_hit. by destruct (w_a1 w), (w_a2 w). Qed.

Lemma fail_time_fill (w : W) e tr :
  fail_time (fill2 action2 (fill1 action1 w e) e) tr = fail_time w tr.
Proof. unfold fail_time. by autorewrite with correlator. Qed.

Lemma decide_outcome_join0 p k : decide_outcome (Some (0, p)) k = [ONext p].
Proof. by destruct k as [[tk b]|]. Qed.

Lemma decide_outcome_fail0 j b :
  decide_outcome (shift j) (Some (0, b)) = [OError (Thrown (action_error b))].
Proof. by destruct j as [[tj p]|]. Qed.

(** The machine meets the declarative specification: an open window,
    followed by events that bring no new request, emits exactly
    [window_outcome]. *)
Theorem window_run_outcome (w : W) tr :
  joined w = None -> no_request tr ->
  crun (Listening (Some w)) tr = window_outcome w tr.
Proof.
  revert w. induction tr as [|e tr IH]; intros w Hj Hnr.
  { unfold window_outcome. by rewrite join_time_nil. }
  inversion Hnr as [|? ? [Hs Hb] Hnr']; subst.
  cbn [correlator_run correlator_step]. rewrite Hb, Hs.
  unfold window_step, window_outcome.
  destruct (joined (fill1 action1 w e)) as [p|] eqn:J1.
  { rewrite crun_idle, (join_time_now w e tr p) by auto.
    by rewrite decide_outcome_join0. }
  destruct (joined (fill2 action2 (fill1 action1 w e) e)) as [p|] eqn:J2.
  { rewrite crun_idle, (join_time_now w e tr p) by auto.
    by rewrite decide_outcome_join0. }
  rewrite (join_time_quiet w e tr) by done.
  unfold fail_time at 1. rewrite first_hit_cons.
  destruct (correlated failAction (w_source w) e) as [b|] eqn:Ef.
  - by rewrite crun_failed, decide_outcome_fail0.
  - rewrite IH by done. unfold window_outcome.
    by rewrite <- decide_outcome_shift, fail_time_fill.
Qed.

Lemma first_hit_map {X} (p : Ev -> option X) tr tr' :
  map p tr = map p tr' -> first_hit p tr = first_hit p tr'.
Proof.
  revert tr'. induction tr as [|e tr IH]; intros [|e' tr'] Hm; try done.
  cbn in Hm. injection Hm as He Hm. cbn. rewrite He. by rewrite (IH tr').
Qed.

(** A window emits at most one notification. *)
Lemma window_outcome_length (w : W) tr : length (window_outcome w tr) <= 1.
Proof.
  unfold window_outcome, decide_outcome.
  repeat case_match; cbn; lia.
Qed.

Lemma correlator_final_idle tr :
  no_request tr -> correlator_final source action1 action2 failAction bus_end (Listening None) tr = Listening None.
Proof. induction 1 as [|e tr [He Hb] _ IH]; [done|]. cbn. by rewrite Hb, He. Qed.

Lemma correlator_final_failed tr :
  correlator_final source action1 action2 failAction bus_end Failed tr = Failed.
Proof. by induction tr. Qed.

(** A window step either emits nothing and keeps a window open, or
    closes the window. *)
Lemma window_step_cases (w : W) e :
  (snd (window_step action1 action2 failAction w e) = [] /\
   exists w', fst (window_step action1 action2 failAction w e) = Listening (Some w')) \/
  fst (window_step action1 action2 failAction w e) = Listening None \/
  fst (window_step action1 action2 failAction w e) = Failed.
Proof. unfold window_step. repeat case_match; eauto. Qed.

(** Once a window has produced its outcome, events without requests
    leave the operator with no open window. *)
Lemma window_final_resolved (w : W) tr :
  no_request tr -> crun (Listening (Some w)) tr <> [] ->
  correlator_final source action1 action2 failAction bus_end (Listening (Some w)) tr
    = Listening None \/
  correlator_final source action1 action2 failAction bus_end (Listening (Some w)) tr
    = Failed.
Proof.
  revert w. induction tr as [|e tr IH]; intros w Hnr Hout; [done|].
  inversion Hnr as [|? ? [Hs Hb] Hnr']; subst.
  cbn [correlator_run correlator_final correlator_step] in *. rewrite Hb, Hs in *.
  destruct (window_step_cases w e) as [[Hnil [w' Hw']] | [Hn | Hf]].
  - destruct (window_step action1 action2 failAction w e) as [ph' out].
    cbn in Hnil, Hw'. subst. apply IH; [done|]. by rewrite app_nil_l in Hout.
  - rewrite Hn. left. by apply correlator_final_idle.
  - rewrite Hf. right. apply correlator_final_failed.
Qed.

(** A window that has emitted nothing on events without requests is
    still open. *)
Lemma window_silent_open (w : W) tr :
  no_request tr -> crun (Listening (Some w)) tr = [] ->
  exists w', correlator_final source action1 action2 failAction bus_end
               (Listening (Some w)) tr = Listening (Some w').
Proof.
  revert w. induction tr as [|e tr IH]; intros w Hnr Hrun; [by eexists|].
  inversion Hnr as [|? ? [Hs Hb] Hnr']; subst.
  cbn [correlator_run correlator_final correlator_step] in *. rewrite Hb, Hs in *.
  unfold window_step in *. repeat case_match; simplify_eq; cbn in *; try done.
  by apply IH.
Qed.

(** What an open window has done after events without requests: still
    open and silent, joined (and closed) with one pair, or failed with one
    error. *)
Lemma window_final_shape (w : W) tr :
  no_request tr -> joined w = None ->
  (exists w', correlator_final source action1 action2 failAction bus_end
                (Listening (Some w)) tr = Listening (Some w') /\
              crun (Listening (Some w)) tr = []) \/
  (correlator_final source action1 action2 failAction bus_end
     (Listening (Some w)) tr = Listening None /\
   exists p, crun (Listening (Some w)) tr = [ONext p]) \/
  (correlator_final source action1 action2 failAction bus_end
     (Listening (Some w)) tr = Failed /\
   exists err, crun (Listening (Some w)) tr = [OError err]).
Proof.
  revert w. induction tr as [|e tr IH]; intros w Hnr Hj; [left; by eexists|].
  inversion Hnr as [|? ? [Hs Hb] Hnr']; subst.
  cbn [correlator_run correlator_final correlator_step]. rewrite Hb, Hs.
  unfold window_step.
  destruct (joined (fill1 action1 w e)) as [p|] eqn:J1.
  { right; left. cbn. rewrite crun_idle, correlator_final_idle by done. eauto. }
  destruct (joined (fill2 action2 (fill1 action1 w e) e)) as [p|] eqn:J2.
  { right; left. cbn. rewrite crun_idle, correlator_final_idle by done. eauto. }
  destruct (correlated failAction (w_source w) e) as [b|].
  - right; right. cbn. rewrite crun_failed, correlator_final_failed. eauto.
  - cbn [fst snd app]. by apply IH.
Qed.

End Outcome.
