(* ===== verification/Aggregate.v ===== *)
(** * Aggregate: [aggregate] of aggregate.ts as a composition of the Rx
    operators

    [getAggregatedActions] (lines 28-56) and the operator returned by
    [aggregate] (lines 58-60), built from the models of [filter], [first],
    [forkJoin], [race], [switchMap] and [_throw] in Rx.v, exactly as the
    source pipes them.  The three response streams are parameters of the
    section, as they are parameters of [aggregate]. *)

From stdpp Require Import base list option.
From S2P Require Import Prelude Rx Actions.

Section Aggregate.
Context {Ev Err Src A1 A2 F S1 S2 SF : Type}.
Context `{!AggregatableAction Src} `{!AggregatableAction A1}
        `{!AggregatableAction A2} {HF : AggregatableAction F}
        `{!FailActionForAggregation F Err}.

(** Errors thrown by the operator carry the failure action's [error]
    field, which may be [undefined]. *)
Local Abbreviation Obs := (Observable Ev (option Err)).

Variable action1 : Obs S1 A1.
Variable action2 : Obs S2 A2.
Variable failAction : Obs SF F.

(** [a1$ = action1$.pipe(filter(a => filterAction(sourceAction, a)),
    first())] *)
Definition a1_stream (sourceAction : Src) : Obs S1 A1 :=
  first (filter (filterAction sourceAction) action1).

(** [a2$], likewise on [action2$]. *)
Definition a2_stream (sourceAction : Src) : Obs S2 A2 :=
  first (filter (filterAction sourceAction) action2).

(** [f$ = failAction$.pipe(filter(...), first(),
    switchMap(b => throwError(b.error)))] *)
Definition f_stream (sourceAction : Src)
  : Obs (SwitchMapState SF F unit) (A1 * A2) :=
  switchMap (fun b => throwError (action_error b))
    (first (filter (filterAction sourceAction) failAction)).

(** [race(forkJoin([a1$, a2$]), f$)] *)
Definition getAggregatedActions (sourceAction : Src) :=
  race (forkJoin (a1_stream sourceAction) (a2_stream sourceAction))
       (f_stream sourceAction).

(** [source => source.pipe(switchMap(sourceAction =>
    getAggregatedActions(sourceAction)))] *)
Definition aggregate {S0} (source : Obs S0 Src) :=
  switchMap getAggregatedActions source.

End Aggregate.
