(* ===== verification/ValueTypes.v ===== *)
(** * ValueTypes: what values the operators can emit, on any sources

    A refinement typing of observables: [obs_inv o I p] says that every
    value [o] emits satisfies [p], given an invariant [I] of its state
    that its subscription establishes and each event preserves.  Each
    operator [aggregate] composes transports such a typing from its
    sources to its output: [filter(p)] gives its values the type [p],
    [first()] keeps the type of its source, [forkJoin] pairs the types of
    its sources, [race] keeps the common type of its sources, and the
    [switchMap] to [_throw] emits no value at all.  Hence, whatever the
    three response streams do, the window of a request only ever emits
    pairs of actions correlated with that request. *)

From stdpp Require Import base list option.
From S2P Require Import Prelude Rx Actions Aggregate.

Section ValueTypes.
Context {Ev V : Type}.
Local Abbreviation Notif := (Notification V).
Local Abbreviation Obs := (Observable Ev V).

Definition note_ok {X} (p : X -> bool) (n : Notif X) : bool :=
  match n with ONext x => p x | _ => true end.

(** Every value of [ns] satisfies [p]. *)
Definition vals_ok {X} (p : X -> bool) (ns : list (Notif X)) : bool :=
  forallb (note_ok p) ns.

Definition opt_inv {S} (I : S -> Prop) (c : option S) : Prop :=
  match c with Some s => I s | None => True end.

(** A step emits only values of type [p] and leaves the state in [I]. *)
Definition step_ok {S X} (I : S -> Prop) (p : X -> bool) (m : emit S (Notif X)) : Prop :=
  vals_ok p (snd m) = true /\ opt_inv I (fst m).

Definition obs_inv {S X} (o : Obs S X) (I : S -> Prop) (p : X -> bool) : Prop :=
  step_ok I p (obs_subscribe o) /\ forall s e, I s -> step_ok I p (obs_next o s e).

(** ** Generic lemmas *)

Lemma vals_ok_app {X} (p : X -> bool) l1 l2 :
  vals_ok p (l1 ++ l2) = vals_ok p l1 && vals_ok p l2.
Proof. apply forallb_app. Qed.

Lemma vals_ok_cut {X} (p : X -> bool) ns :
  vals_ok p ns = true -> vals_ok p (fst (cut ns)) = true.
Proof.
  induction ns as [|n ns IH]; [done|]. cbn. intros [Hn Hns]%andb_true_iff.
  destruct (is_terminal n); cbn; [by rewrite Hn|].
  destruct (cut ns) as [r t]; cbn in *. rewrite Hn. by apply IH.
Qed.

Lemma step_ok_guarded {S X} (I : S -> Prop) (p : X -> bool) m :
  step_ok I p m -> step_ok I p (guarded m).
Proof.
  destruct m as [r ns]. unfold step_ok, guarded. cbn. intros [Hv Hi].
  pose proof (vals_ok_cut p ns Hv) as Hc.
  destruct (cut ns) as [ns' []]; cbn in *; done.
Qed.

Lemma step_ok_ret {S X} (I : S -> Prop) (p : X -> bool) s : I s -> step_ok I p (ret s).
Proof. done. Qed.

Lemma step_ok_halt {S X} (I : S -> Prop) (p : X -> bool) ns :
  vals_ok p ns = true -> step_ok I p (halt ns).
Proof. done. Qed.

Lemma step_ok_ebind {A B X} (J : A -> Prop) (K : B -> Prop) (p : X -> bool)
    (m : emit A (Notif X)) (k : A -> emit B (Notif X)) :
  step_ok J p m -> (forall a, J a -> step_ok K p (k a)) -> step_ok K p (ebind m k).
Proof.
  unfold step_ok. intros [Hv Hi] Hk. destruct m as [[a|] o1]; cbn [fst snd ebind] in *; [|done].
  destruct (Hk a Hi) as [Hv2 Hi2]. destruct (k a) as [r o2]; cbn [fst snd] in *.
  by rewrite vals_ok_app, Hv, Hv2.
Qed.

Lemma step_ok_feed {St N X} (J : St -> Prop) (pin : N -> bool) (p : X -> bool)
    (h : St -> Notif N -> emit St (Notif X)) s ns :
  (forall s n, J s -> note_ok pin n = true -> step_ok J p (h s n)) ->
  J s -> vals_ok pin ns = true -> step_ok J p (feed h s ns).
Proof.
  intros Hh. revert s. induction ns as [|n ns IH]; intros s Hs Hns; [done|].
  cbn in Hns. apply andb_true_iff in Hns as [Hn Hns].
  rewrite feed_cons. eapply step_ok_ebind; [by apply Hh|]. intros a Ha. by apply IH.
Qed.

Lemma sub_next_inv {S X} (o : Obs S X) I p c e :
  obs_inv o I p -> opt_inv I c -> step_ok I p (sub_next o c e).
Proof.
  intros [_ Ho] Hc. destruct c as [s|]; [|done].
  apply step_ok_guarded, Ho, Hc.
Qed.

Lemma sub_open_inv {S X} (o : Obs S X) I p :
  obs_inv o I p -> step_ok I p (sub_open o).
Proof. intros [Hs _]. by apply step_ok_guarded. Qed.

Lemma run_from_inv {S X} (o : Obs S X) I p c tr :
  obs_inv o I p -> opt_inv I c -> vals_ok p (run_from o c tr) = true.
Proof.
  intros Ho. revert c. induction tr as [|e tr IH]; intros c Hc; [done|]. cbn [run_from].
  destruct (sub_next_inv o I p c e Ho Hc) as [Hv Hi].
  destruct (sub_next o c e) as [c' ns]; cbn [fst snd] in *.
  rewrite vals_ok_app, Hv. by apply IH.
Qed.

(** A typed observable emits only values of its type. *)
Lemma run_inv {S X} (o : Obs S X) I p tr :
  obs_inv o I p -> vals_ok p (run o tr) = true.
Proof.
  intros Ho. unfold run. destruct (sub_open_inv o I p Ho) as [Hv Hi].
  destruct (sub_open o) as [c ns]; cbn [fst snd] in *.
  rewrite vals_ok_app, Hv. by eapply run_from_inv.
Qed.

Lemma vals_ok_elem {X} (p : X -> bool) ns x :
  vals_ok p ns = true -> ONext x ∈ ns -> p x = true.
Proof.
  unfold vals_ok. rewrite forallb_forall. intros Hall Hin.
  apply (Hall (ONext x)). by apply list_elem_of_In.
Qed.

(** ** The operators *)

(** [filter(p)] gives its values the type [p], whatever its source. *)
Lemma vals_ok_filter {X} (p : X -> bool) ns :
  vals_ok p (List.filter (filter_notif p) ns) = true.
Proof.
  induction ns as [|n ns IH]; [done|]. unfold vals_ok in *.
  destruct n as [x| |]; cbn [List.filter filter_notif];
    [destruct (p x) eqn:Hp|..]; cbn [forallb note_ok]; by rewrite ?Hp, ?IH.
Qed.

Lemma filter_typed {S X} (p : X -> bool) (o : Obs S X) :
  obs_inv (filter p o) (fun _ => True) p.
Proof.
  assert (forall m, step_ok (fun _ : S => True) p (filter_react p m)) as Hf.
  { intros m. unfold filter_react. destruct (guarded m) as [[r|] ns];
      split; cbn [fst snd]; try apply vals_ok_filter; done. }
  split; [apply Hf|]. intros. apply Hf.
Qed.

(** [first()] keeps the type and the state invariant of its source. *)
Lemma step_ok_first_react {S X} (I : S -> Prop) (p : X -> bool) m :
  step_ok I p m -> step_ok I p (first_react m).
Proof.
  intros Hm%step_ok_guarded. unfold first_react.
  destruct (guarded m) as [r [|n ns]]; [done|].
  destruct Hm as [Hv _]. cbn in Hv. apply andb_true_iff in Hv as [Hn _].
  split; [|done]. destruct n; cbn in *; by rewrite ?Hn.
Qed.

Lemma first_typed {S X} (o : Obs S X) I p :
  obs_inv o I p -> obs_inv (first o) I p.
Proof.
  intros [Hs Hn]. split; [by apply step_ok_first_react|].
  intros s e Hi. by apply step_ok_first_react, Hn.
Qed.

(** [forkJoin] pairs the types of its sources: the values it holds have
    the types of their sources. *)
Definition opt_ok {X} (p : X -> bool) (o : option X) : bool :=
  match o with Some x => p x | None => true end.

Definition pair_ok {A B} (p1 : A -> bool) (p2 : B -> bool) (x : A * B) : bool :=
  p1 x.1 && p2 x.2.

Section ForkJoinTyped.
Context {S1 S2 A B : Type}.
Variables (I1 : S1 -> Prop) (I2 : S2 -> Prop) (p1 : A -> bool) (p2 : B -> bool).

Definition fj_inv (st : ForkJoinState S1 S2 A B) : Prop :=
  opt_inv I1 (fj_sub1 st) /\ opt_inv I2 (fj_sub2 st) /\
  opt_ok p1 (fj_value1 st) = true /\ opt_ok p2 (fj_value2 st) = true.

Lemma fj_complete_ok hv st :
  fj_inv st -> step_ok fj_inv (pair_ok p1 p2) (fj_complete hv st).
Proof.
  intros (H1 & H2 & H3 & H4). unfold fj_complete.
  destruct hv; cbn; [|done]. destruct (Nat.eqb _ 2); [|done].
  destruct (fj_value1 st) as [a|], (fj_value2 st) as [b|]; cbn in *; try done.
  split; [|done]. unfold vals_ok, pair_ok. cbn. by rewrite H3, H4.
Qed.

Lemma fj_handle1_ok st n :
  fj_inv st -> note_ok p1 n = true -> step_ok fj_inv (pair_ok p1 p2) (fj_handle1 st n).
Proof.
  intros Hst Hn. destruct n as [a| |]; cbn; [|done|].
  - destruct Hst as (? & ? & ? & ?). split; [done|]. cbn. by repeat split.
  - apply fj_complete_ok. destruct Hst as (? & ? & ? & ?). by repeat split.
Qed.

Lemma fj_handle2_ok st n :
  fj_inv st -> note_ok p2 n = true -> step_ok fj_inv (pair_ok p1 p2) (fj_handle2 st n).
Proof.
  intros Hst Hn. destruct n as [b| |]; cbn; [|done|].
  - destruct Hst as (? & ? & ? & ?). split; [done|]. cbn. by repeat split.
  - apply fj_complete_ok. destruct Hst as (? & ? & ? & ?). by repeat split.
Qed.

Lemma forkJoin_typed (o1 : Obs S1 A) (o2 : Obs S2 B) :
  obs_inv o1 I1 p1 -> obs_inv o2 I2 p2 -> obs_inv (forkJoin o1 o2) fj_inv (pair_ok p1 p2).
Proof.
  intros H1 H2. split; cbn [obs_subscribe obs_next forkJoin].
  - destruct (sub_open_inv o1 I1 p1 H1) as [V1 C1].
    destruct (sub_open o1) as [c1 ns1]; cbn [fst snd] in *.
    eapply step_ok_ebind; [eapply step_ok_feed; [apply fj_handle1_ok|by repeat split|done]|].
    intros st (? & ? & ? & ?).
    destruct (sub_open_inv o2 I2 p2 H2) as [V2 C2].
    destruct (sub_open o2) as [c2 ns2]; cbn [fst snd] in *.
    eapply step_ok_feed; [apply fj_handle2_ok|by repeat split|done].
  - intros st e (? & ? & ? & ?).
    destruct (sub_next_inv o1 I1 p1 (fj_sub1 st) e H1 ltac:(done)) as [V1 C1].
    destruct (sub_next o1 (fj_sub1 st) e) as [c1 ns1]; cbn [fst snd] in *.
    eapply step_ok_ebind; [eapply step_ok_feed; [apply fj_handle1_ok|by repeat split|done]|].
    intros st1 (? & ? & ? & ?).
    destruct (sub_next_inv o2 I2 p2 (fj_sub2 st1) e H2 ltac:(done)) as [V2 C2].
    destruct (sub_next o2 (fj_sub2 st1) e) as [c2 ns2]; cbn [fst snd] in *.
    eapply step_ok_feed; [apply fj_handle2_ok|by repeat split|done].
Qed.

End ForkJoinTyped.

(** [race] keeps the common type of its sources. *)
Section RaceTyped.
Context {S1 S2 X : Type}.
Variables (I1 : S1 -> Prop) (I2 : S2 -> Prop) (p : X -> bool).

Definition race_inv (st : RaceState S1 S2) : Prop :=
  opt_inv I1 (race_sub1 st) /\ opt_inv I2 (race_sub2 st).

Lemma race_handle1_ok st n :
  race_inv st -> note_ok p n = true -> step_ok race_inv p (race_handle1 st n).
Proof.
  intros [H1 H2] Hn. destruct n as [x| |]; cbn; [|done..]. cbn in Hn.
  destruct (race_hasFirst st); split; cbn; rewrite ?Hn; done.
Qed.

Lemma race_handle2_ok st n :
  race_inv st -> note_ok p n = true -> step_ok race_inv p (race_handle2 st n).
Proof.
  intros [H1 H2] Hn. destruct n as [x| |]; cbn; [|done..]. cbn in Hn.
  destruct (race_hasFirst st); split; cbn; rewrite ?Hn; done.
Qed.

Lemma race_typed (o1 : Obs S1 X) (o2 : Obs S2 X) :
  obs_inv o1 I1 p -> obs_inv o2 I2 p -> obs_inv (race o1 o2) race_inv p.
Proof.
  intros H1 H2. split; cbn [obs_subscribe obs_next race].
  - destruct (sub_open_inv o1 I1 p H1) as [V1 C1].
    destruct (sub_open o1) as [c1 ns1]; cbn [fst snd] in *.
    eapply step_ok_ebind; [eapply step_ok_feed; [apply race_handle1_ok|done|done]|].
    intros st [? ?]. destruct (race_hasFirst st); [done|].
    destruct (sub_open_inv o2 I2 p H2) as [V2 C2].
    destruct (sub_open o2) as [c2 ns2]; cbn [fst snd] in *.
    eapply step_ok_feed; [apply race_handle2_ok|done|done].
  - intros st e [? ?].
    destruct (sub_next_inv o1 I1 p (race_sub1 st) e H1 ltac:(done)) as [V1 C1].
    destruct (sub_next o1 (race_sub1 st) e) as [c1 ns1]; cbn [fst snd] in *.
    eapply step_ok_ebind; [eapply step_ok_feed; [apply race_handle1_ok|done|done]|].
    intros st1 [? ?].
    destruct (sub_next_inv o2 I2 p (race_sub2 st1) e H2 ltac:(done)) as [V2 C2].
    destruct (sub_next o2 (race_sub2 st1) e) as [c2 ns2]; cbn [fst snd] in *.
    eapply step_ok_feed; [apply race_handle2_ok|done|done].
Qed.

End RaceTyped.

(** [switchMap(b => _throw(g b))] emits no value: it has every type. *)
Lemma switchMap_throw_typed {S X Y} (g : X -> V) (o : Obs S X) (q : Y -> bool) :
  obs_inv (switchMap (Y:=Y) (fun b => throwError (g b)) o)
    (fun st => sw_inner st = None) q.
Proof.
  split; cbn [obs_subscribe obs_next switchMap].
  - destruct (sub_open o) as [c [|n ns]]; [done|]. by destruct n.
  - intros [c b i] e Hi; cbn in Hi; subst i.
    cbn [sw_outer sw_stopped sw_inner].
    destruct (sub_next o c e) as [c' [|n ns]]; [done|]. by destruct n.
Qed.

End ValueTypes.

Section WindowTyped.
Context {Ev Err Src A1 A2 F S1 S2 SF : Type}.
Context `{!AggregatableAction Src} `{!AggregatableAction A1}
        `{!AggregatableAction A2} {HF : AggregatableAction F}
        `{!FailActionForAggregation F Err}.
Local Abbreviation Obs := (Observable Ev (option Err)).

(** C21: Type of the window's result, on any sources: whatever
    [action1$], [action2$] and [failAction$] do, every pair that
    [getAggregatedActions(sourceAction)] emits is made of actions that
    both pass [filterAction(sourceAction, _)]. *)
Theorem window_values_correlated (action1 : Obs S1 A1) (action2 : Obs S2 A2)
    (failAction : Obs SF F) (r : Src) tr a b :
  ONext (a, b) ∈ run (getAggregatedActions action1 action2 failAction r) tr ->
  filterAction r a = true /\ filterAction r b = true.
Proof.
  intros Hin.
  assert (obs_inv (getAggregatedActions action1 action2 failAction r)
            (race_inv (fj_inv (fun _ => True) (fun _ => True) (filterAction r) (filterAction r))
                      (fun st => sw_inner st = None))
            (pair_ok (filterAction r) (filterAction r))) as Ht.
  { unfold getAggregatedActions, a1_stream, a2_stream, f_stream.
    apply race_typed; [|apply switchMap_throw_typed].
    apply forkJoin_typed; apply first_typed, filter_typed. }
  pose proof (vals_ok_elem _ _ _ (run_inv _ _ _ tr Ht) Hin) as H.
  unfold pair_ok in H. cbn in H. by apply andb_true_iff in H.
Qed.

End WindowTyped.
