(* ===== verification/Refinement.v ===== *)
(** * Refinement: the composed operator implements the correlator machine

    For hot input streams, the subscription to
    [source.pipe(aggregate(action1$, action2$, failAction$))] built from
    the Rx operators (Aggregate.v) is in lock step with the [Correlator]
    machine: [embed_phase] maps each machine state to the state of the
    composed subscription, every bus event takes related states to related
    states with the same emissions, and so the two emit the same
    notifications on every sequence of events.  The states of the
    composed subscription are therefore always images of well-formed
    machine phases, and the phase is read back from them by
    [abstract_state]. *)

From stdpp Require Import base list option.
From S2P Require Import Prelude Rx Actions Correlator Aggregate.

Section Refinement.
Context {Ev Err Src A1 A2 F : Type}.
Context `{!AggregatableAction Src} `{!AggregatableAction A1}
        `{!AggregatableAction A2} {HF : AggregatableAction F}
        `{!FailActionForAggregation F Err}.
Variable source : Ev -> option Src.
Variable action1 : Ev -> option A1.
Variable action2 : Ev -> option A2.
Variable failAction : Ev -> option F.
Variable bus_end : Ev -> bool.

Local Abbreviation W := (Window Src A1 A2).
Local Abbreviation P := (Phase Src A1 A2).
Local Abbreviation Out := (Notification (option Err) (A1 * A2)).
Local Abbreviation FJ := (ForkJoinState unit unit A1 A2).

(** [source.pipe(aggregate(action1$, action2$, failAction$))] on the bus. *)
Definition aggregate_hot :=
  aggregate (Err:=Err) (hot bus_end action1) (hot bus_end action2) (hot bus_end failAction) (hot bus_end source).

(** ** The simulation relation *)

(** The subscription of [first()] on a slot is open while the slot is
    empty. *)
Definition slot_sub {X} (o : option X) : option unit :=
  match o with Some _ => None | None => Some tt end.

Definition filled (w : W) : nat :=
  (if w_a1 w is Some _ then 1 else 0) + (if w_a2 w is Some _ then 1 else 0).

Definition embed_fj (w : W) : ForkJoinState unit unit A1 A2 :=
  mkFJ (slot_sub (w_a1 w)) (slot_sub (w_a2 w)) (w_a1 w) (w_a2 w) (filled w).

Definition embed_window (w : W) :=
  mkRace (Some (embed_fj w)) (Some (switch_idle (X:=F) (T:=unit))) false.

Definition embed_phase (ph : P) :=
  match ph with
  | Listening ow =>
      Some (mkSwitch (Some tt) false
              (option_map (fun w => (w_source w, embed_window w)) ow))
  | Failed | Completed => None
  end.

(** The subscriptions to [action1$], [action2$] and [failAction$] that the
    open window of the operator holds. *)
Definition live_subscriptions
    (c : option (SwitchMapState unit Src
                   (RaceState FJ (SwitchMapState unit F unit)))) : nat :=
  match c with
  | Some st =>
      match sw_inner st with
      | Some (_, rs) =>
          match race_sub1 rs with
          | Some fj => (if fj_sub1 fj is Some _ then 1 else 0) +
                       (if fj_sub2 fj is Some _ then 1 else 0)
          | None => 0
          end +
          match race_sub2 rs with
          | Some sw => if sw_outer sw is Some _ then 1 else 0
          | None => 0
          end
      | None => 0
      end
  | None => 0
  end.

(** Reading the machine phase back from the state of the composed
    subscription: the request of the inner subscription of [switchMap] and
    the values [forkJoin] holds.  A closed subscription has no phase to
    read back (it has failed or completed). *)
Definition abstract_state
    (c : option (SwitchMapState unit Src
                   (RaceState FJ (SwitchMapState unit F unit)))) : option P :=
  match c with
  | None => None
  | Some st =>
      match sw_inner st with
      | None => Some (Listening None)
      | Some (r, rs) =>
          match race_sub1 rs with
          | Some fj => Some (Listening (Some (mkWindow r (fj_value1 fj) (fj_value2 fj))))
          | None => None
          end
      end
  end.

Lemma abstract_embed (ph : P) :
  abstract_state (embed_phase ph) = if listening ph then Some ph else None.
Proof. by destruct ph as [[[r a b]|]| |]. Qed.

(** ** One event, operator by operator *)

(** [forkJoin([a1$, a2$])] on an open window fills the slots in order and
    emits the pair when both are filled. *)
Lemma forkJoin_window_next (w : W) e :
  joined w = None -> bus_end e = false ->
  obs_next (forkJoin (a1_stream (Err:=Err) (hot bus_end action1) (w_source w))
                     (a2_stream (Err:=Err) (hot bus_end action2) (w_source w)))
    (embed_fj w) e =
  match joined (fill1 action1 w e) return emit FJ Out with
  | Some p => halt [ONext p; OComplete]
  | None =>
      match joined (fill2 action2 (fill1 action1 w e) e) with
      | Some p => halt [ONext p; OComplete]
      | None => ret (embed_fj (fill2 action2 (fill1 action1 w e) e))
      end
  end.
Proof.
  intros Hj Hb; destruct w as [r [a|] [b|]]; cbn in Hj; try discriminate;
    unfold embed_fj, a1_stream, a2_stream, fill1, fill2, correlated;
    cbn [obs_next forkJoin slot_sub w_a1 w_a2 w_source fj_sub1 fj_sub2 fj_set1 fj_set2];
    rewrite ?sub_next_closed, ?sub_next_first_hot, ?Hb.
  all: destruct (select (filterAction r) action1 e); cbn -[sub_next];
    rewrite ?sub_next_closed, ?sub_next_first_hot, ?Hb;
    try destruct (select (filterAction r) action2 e); reflexivity.
Qed.

Local Abbreviation RS :=
  (RaceState FJ (SwitchMapState unit F unit)).

(** [race(forkJoin([a1$, a2$]), f$)] on an open window: a completed join
    wins; otherwise a correlated failure errors. *)
Lemma race_window_next (w : W) e :
  joined w = None -> bus_end e = false ->
  obs_next (getAggregatedActions (Err:=Err) (hot bus_end action1) (hot bus_end action2)
              (hot bus_end failAction) (w_source w)) (embed_window w) e =
  match joined (fill1 action1 w e) return emit RS Out with
  | Some p => halt [ONext p; OComplete]
  | None =>
      match joined (fill2 action2 (fill1 action1 w e) e) with
      | Some p => halt [ONext p; OComplete]
      | None =>
          match correlated failAction (w_source w) e with
          | Some b => halt [OError (Thrown (action_error b))]
          | None => ret (embed_window (fill2 action2 (fill1 action1 w e) e))
          end
      end
  end.
Proof.
  intros Hj Hb. unfold getAggregatedActions, embed_window.
  cbn [obs_next race race_sub1 race_sub2 race_hasFirst].
  rewrite sub_next_open, forkJoin_window_next by done.
  destruct (joined (fill1 action1 w e)); [reflexivity|].
  destruct (joined (fill2 action2 (fill1 action1 w e) e)); [reflexivity|].
  cbn -[sub_next]. unfold f_stream. rewrite sub_next_throw_first_hot, Hb.
  unfold correlated. by destruct (select (filterAction (w_source w)) failAction e).
Qed.

(** At the end of the bus, an open window errors: the [first()] of an
    empty slot completes without a value, [forkJoin] passes the
    [EmptyError] on, and [race] forwards it. *)
Lemma race_window_end (w : W) e :
  joined w = None -> bus_end e = true ->
  obs_next (getAggregatedActions (Err:=Err) (hot bus_end action1) (hot bus_end action2)
              (hot bus_end failAction) (w_source w)) (embed_window w) e =
  halt [OError EmptyError].
Proof.
  intros Hj Hb. destruct w as [r [a|] [b|]]; cbn in Hj; try discriminate;
    unfold getAggregatedActions, embed_window, embed_fj, a1_stream, a2_stream;
    cbn [obs_next race race_sub1 race_sub2 race_hasFirst forkJoin slot_sub
         w_a1 w_a2 w_source fj_sub1 fj_sub2];
    rewrite sub_next_open; cbn [obs_next forkJoin fj_sub1 fj_sub2];
    do 3 (rewrite ?sub_next_closed, ?sub_next_first_hot, ?Hb; cbn -[sub_next]); reflexivity.
Qed.

(** Subscribing to the window of a fresh request opens every inner
    subscription and emits nothing. *)
Lemma window_subscribe (r : Src) :
  sub_open (getAggregatedActions (Err:=Err) (hot bus_end action1) (hot bus_end action2)
              (hot bus_end failAction) r) =
  (Some (embed_window (window_open r)), []).
Proof. reflexivity. Qed.

Lemma aggregate_step (ph : P) e :
  phase_wf ph ->
  sub_next aggregate_hot (embed_phase ph) e =
  let '(ph', out) := correlator_step source action1 action2 failAction bus_end ph e in
  (embed_phase ph', out).
Proof.
  destruct ph as [ow| |]; intros Hwf; [|reflexivity..].
  unfold aggregate_hot, aggregate, embed_phase, correlator_step.
  rewrite sub_next_open. cbn [obs_next switchMap sw_outer sw_inner sw_stopped].
  rewrite sub_next_open. cbn [obs_next hot].
  destruct (bus_end e) eqn:Hb.
  { destruct ow as [w|]; [|reflexivity]. cbn in Hwf.
    cbn -[sub_next getAggregatedActions]. rewrite sub_next_open.
    rewrite race_window_end by done. reflexivity. }
  destruct (source e) as [r|].
  - cbn -[sub_open getAggregatedActions].
    rewrite window_subscribe. reflexivity.
  - destruct ow as [w|]; [|reflexivity]. cbn in Hwf.
    cbn -[sub_next getAggregatedActions]. rewrite sub_next_open.
    unfold window_step. rewrite race_window_next by done.
    destruct (joined (fill1 action1 w e)); [reflexivity|].
    destruct (joined (fill2 action2 (fill1 action1 w e) e)); [reflexivity|].
    destruct (correlated failAction (w_source w) e); [reflexivity|].
    cbn. by autorewrite with correlator.
Qed.

Lemma aggregate_subscribe :
  sub_open aggregate_hot = (embed_phase (Listening None), []).
Proof. reflexivity. Qed.

Lemma aggregate_run_from (ph : P) tr :
  phase_wf ph ->
  run_from aggregate_hot (embed_phase ph) tr =
  correlator_run source action1 action2 failAction bus_end ph tr.
Proof.
  revert ph. induction tr as [|e tr IH]; intros ph Hwf; [done|].
  cbn [run_from correlator_run]. rewrite aggregate_step by done.
  pose proof (correlator_step_wf source action1 action2 failAction bus_end ph e Hwf)
    as Hwf'.
  destruct (correlator_step source action1 action2 failAction bus_end ph e)
    as [ph' out]. by rewrite IH.
Qed.

Lemma aggregate_state_from (ph : P) tr :
  phase_wf ph ->
  state_from aggregate_hot (embed_phase ph) tr =
  embed_phase (correlator_final source action1 action2 failAction bus_end ph tr).
Proof.
  revert ph. induction tr as [|e tr IH]; intros ph Hwf; [done|].
  cbn [state_from correlator_final]. rewrite aggregate_step by done.
  pose proof (correlator_step_wf source action1 action2 failAction bus_end ph e Hwf)
    as Hwf'.
  destruct (correlator_step source action1 action2 failAction bus_end ph e)
    as [ph' out]. by apply IH.
Qed.

Lemma aggregate_run_state tr :
  run_state aggregate_hot tr =
  embed_phase (correlator_final source action1 action2 failAction bus_end (Listening None) tr).
Proof. unfold run_state. rewrite aggregate_subscribe. by apply aggregate_state_from. Qed.

End Refinement.

(** Rewrite every [run] of the composed operator into a run of the
    correlator machine. *)
Ltac aggregate_to_machine :=
  unfold run in *; rewrite !aggregate_subscribe in *; cbn [app] in *;
  rewrite !aggregate_run_from in * by done.

Section RefinementTheorem.
Context {Ev Err Src A1 A2 F : Type}.
Context `{!AggregatableAction Src} `{!AggregatableAction A1}
        `{!AggregatableAction A2} {HF : AggregatableAction F}
        `{!FailActionForAggregation F Err}.
Variable source : Ev -> option Src.
Variable action1 : Ev -> option A1.
Variable action2 : Ev -> option A2.
Variable failAction : Ev -> option F.
Variable bus_end : Ev -> bool.

(** C1: Refinement: on every sequence of bus events, the operator built by
    [aggregate] from the RxJS operators emits exactly what the correlator
    machine emits from its initial phase. *)
Theorem aggregate_refines_correlator tr :
  run (aggregate_hot (Err:=Err) source action1 action2 failAction bus_end) tr =
  correlator_run source action1 action2 failAction bus_end (Listening None) tr.
Proof. by aggregate_to_machine. Qed.

(** C16: Type of the subscription state: every state the composed
    subscription reaches is the image under [embed_phase] of a
    well-formed phase of the correlator machine. *)
Theorem aggregate_state_typed tr :
  exists ph, run_state (aggregate_hot (Err:=Err) source action1 action2 failAction bus_end) tr
             = embed_phase ph /\ phase_wf ph.
Proof.
  eexists. split; [apply aggregate_run_state|]. by apply correlator_final_wf.
Qed.

(** C17: Round trip: after any sequence of events, the phase of the
    correlator machine is read back from the state of the RxJS
    subscription ([abstract_state]): while the operator listens, the
    request of the open window and the values [forkJoin] holds are
    exactly the machine's; once it has failed or completed, the
    subscription is closed. *)
Theorem aggregate_state_readback tr :
  abstract_state
    (run_state (aggregate_hot (Err:=Err) source action1 action2 failAction bus_end) tr) =
  let ph := correlator_final source action1 action2 failAction bus_end (Listening None) tr in
  if listening ph then Some ph else None.
Proof. rewrite aggregate_run_state. apply abstract_embed. Qed.

End RefinementTheorem.
