(* ===== verification/Properties.v ===== *)
(** * Properties: what the operator returned by [aggregate] does

    The properties of [source.pipe(aggregate(action1$, action2$,
    failAction$))] on hot streams, stated on the composed RxJS model of
    Aggregate.v and proved through the refinement of Refinement.v and the
    window specification of Outcome.v:
    - a request followed by its two correlated responses emits their pair,
      in channel order, whatever order they arrive in (join);
    - a correlated failure before the join completes emits the failure's
      [error] and ends the output (fail-fast);
    - a window emits at most one notification, and only correlated
      actions matter (isolation);
    - a new request discards the open window ([switchMap]);
    - a request without parameters waits for ever;
    - at the end of the bus the output completes, or errors with
      [EmptyError] if a request is still waiting;
    - with the same stream for both successes, the first correlated
      response completes the join. *)

From stdpp Require Import base list option.
From S2P Require Import Prelude Rx Actions Correlator Semantics Outcome Aggregate Refinement.

Section Properties.
Context {Ev Err Src A1 A2 F : Type}.
Context `{!AggregatableAction Src} `{!AggregatableAction A1}
        `{!AggregatableAction A2} {HF : AggregatableAction F}
        `{!FailActionForAggregation F Err}.
Variable source : Ev -> option Src.
Variable action1 : Ev -> option A1.
Variable action2 : Ev -> option A2.
Variable failAction : Ev -> option F.
Variable bus_end : Ev -> bool.

(** What the effect [actions$.pipe(aggregate(...))] emits on a sequence of
    bus events: the notifications its subscriber receives. *)
Definition aggregate_output (tr : list Ev) : list (Notification (option Err) (A1 * A2)) :=
  run (aggregate_hot source action1 action2 failAction bus_end) tr.
Local Abbreviation crun := (correlator_run (Err:=Err) source action1 action2 failAction bus_end).

(** The run of a request followed by events without requests, as the
    window specification of its request. *)
Ltac request_to_outcome Hb0 He0 :=
  unfold aggregate_output; aggregate_to_machine; cbn [correlator_run correlator_step] in *;
  rewrite Hb0, He0; cbn [app]; rewrite !window_run_outcome by done.

(** C4: A request followed by events without requests resolves as its window
    specification says. *)
Theorem aggregate_request_outcome e0 r tr :
  bus_end e0 = false -> source e0 = Some r -> no_request source bus_end tr ->
  aggregate_output (e0 :: tr) = window_outcome action1 action2 failAction (window_open r) tr.
Proof. intros Hb0 He0 Hnr. by request_to_outcome Hb0 He0. Qed.

(** C2: Join: both correlated responses arrive (in either order) and no
    correlated failure comes strictly before the later of them; the
    operator emits exactly their pair, in the order of the streams. *)
Theorem aggregate_join e0 r tr i1 a i2 b :
  bus_end e0 = false -> source e0 = Some r -> no_request source bus_end tr ->
  first_hit (correlated action1 r) tr = Some (i1, a) ->
  first_hit (correlated action2 r) tr = Some (i2, b) ->
  (forall k f, first_hit (correlated failAction r) tr = Some (k, f) ->
               Nat.max i1 i2 <= k) ->
  aggregate_output (e0 :: tr) = [ONext (a, b)].
Proof.
  intros Hb0 He0 Hnr H1 H2 Hf. request_to_outcome Hb0 He0.
  unfold window_outcome, join_time, fail_time, slot_hit; cbn [w_a1 w_a2 w_source window_open].
  rewrite H1, H2. unfold decide_outcome.
  destruct (first_hit (correlated failAction r) tr) as [[k f]|] eqn:Ef; [|done].
  specialize (Hf k f eq_refl). by rewrite (proj2 (Nat.ltb_ge _ _) Hf).
Qed.

(** C3: Fail-fast: a correlated failure strictly before the join completes
    makes the operator emit exactly the failure's [error] payload. *)
Theorem aggregate_fail_fast e0 r tr k f :
  bus_end e0 = false -> source e0 = Some r -> no_request source bus_end tr ->
  first_hit (correlated failAction r) tr = Some (k, f) ->
  (forall i1 a i2 b, first_hit (correlated action1 r) tr = Some (i1, a) ->
                     first_hit (correlated action2 r) tr = Some (i2, b) ->
                     k < Nat.max i1 i2) ->
  aggregate_output (e0 :: tr) = [OError (Thrown (action_error f))].
Proof.
  intros Hb0 He0 Hnr Hf Hj. request_to_outcome Hb0 He0.
  unfold window_outcome, join_time, fail_time, slot_hit; cbn [w_a1 w_a2 w_source window_open]. rewrite Hf.
  destruct (first_hit (correlated action1 r) tr) as [[i1 a]|] eqn:E1,
    (first_hit (correlated action2 r) tr) as [[i2 b]|] eqn:E2; try done.
  unfold decide_outcome.
  by rewrite (proj2 (Nat.ltb_lt _ _) (Hj i1 a i2 b eq_refl eq_refl)).
Qed.

(** C8: No timeout: while a success stream has not answered and no failure
    has come, the window stays open and the operator emits nothing. *)
Theorem aggregate_waits e0 r tr :
  bus_end e0 = false -> source e0 = Some r -> no_request source bus_end tr ->
  first_hit (correlated failAction r) tr = None ->
  (first_hit (correlated action1 r) tr = None \/
   first_hit (correlated action2 r) tr = None) ->
  aggregate_output (e0 :: tr) = [].
Proof.
  intros Hb0 He0 Hnr Hf Hs. request_to_outcome Hb0 He0.
  unfold window_outcome, join_time, fail_time, slot_hit; cbn [w_a1 w_a2 w_source window_open]. rewrite Hf.
  destruct Hs as [-> | ->]; [done|].
  by destruct (first_hit (correlated action1 r) tr) as [[??]|].
Qed.

(** C7: At most one outcome per request. *)
Theorem aggregate_at_most_one e0 r tr :
  bus_end e0 = false -> source e0 = Some r -> no_request source bus_end tr ->
  length (aggregate_output (e0 :: tr)) <= 1.
Proof.
  intros Hb0 He0 Hnr. request_to_outcome Hb0 He0.
  apply window_outcome_length.
Qed.

(** C5: Isolation: the outcome of a request depends only on the actions
    correlated with it; uncorrelated actions of any stream, with another
    correlation id or another parent type, never change it. *)
Theorem aggregate_isolation e0 r tr tr' :
  bus_end e0 = false -> source e0 = Some r -> no_request source bus_end tr -> no_request source bus_end tr' ->
  map (correlated action1 r) tr = map (correlated action1 r) tr' ->
  map (correlated action2 r) tr = map (correlated action2 r) tr' ->
  map (correlated failAction r) tr = map (correlated failAction r) tr' ->
  aggregate_output (e0 :: tr) = aggregate_output (e0 :: tr').
Proof.
  intros Hb0 He0 Hnr Hnr' H1 H2 Hf.
  request_to_outcome Hb0 He0.
  unfold window_outcome, join_time, fail_time, slot_hit; cbn [w_a1 w_a2 w_source window_open].
  by rewrite (first_hit_map _ _ _ H1), (first_hit_map _ _ _ H2),
    (first_hit_map _ _ _ Hf).
Qed.

(** C6: [switchMap]: a new request discards the open window.  Whatever the
    first request was waiting for, once a second request arrives before
    the first has produced an outcome, the output is that of the second
    request alone; the first request never gets an outcome. *)
Theorem aggregate_switch_discards e0 r1 tr1 e1 r2 tr2 :
  source e0 = Some r1 -> bus_end e1 = false -> source e1 = Some r2 ->
  aggregate_output (e0 :: tr1) = [] ->
  aggregate_output (e0 :: tr1 ++ e1 :: tr2) = aggregate_output (e1 :: tr2).
Proof.
  intros H0 Hb1 H1 Hrun. unfold aggregate_output in *. aggregate_to_machine.
  rewrite app_comm_cons, correlator_run_app, Hrun, app_nil_l.
  pose proof (correlator_final_silent source action1 action2 failAction bus_end
                (Listening None) (e0 :: tr1) ltac:(done) Hrun) as Hnf.
  destruct (correlator_final source action1 action2 failAction bus_end
              (Listening None) (e0 :: tr1)) as [ow| |]; try done.
  cbn. by rewrite Hb1, H1.
Qed.

(** C12: Resource cleanup: once a request has its outcome, the operator
    holds no subscription to [action1$], [action2$] or [failAction$] any
    more: [first()] closed the answered streams, [race] unsubscribed the
    losing side, and [switchMap] dropped the finished window. *)
Theorem aggregate_releases_subscriptions e0 r tr :
  bus_end e0 = false -> source e0 = Some r -> no_request source bus_end tr ->
  aggregate_output (e0 :: tr) <> [] ->
  live_subscriptions (run_state (aggregate_hot source action1 action2 failAction bus_end)
                        (e0 :: tr)) = 0.
Proof.
  intros Hb0 He0 Hnr Hout. unfold aggregate_output in Hout.
  aggregate_to_machine. rewrite aggregate_run_state.
  cbn [correlator_run correlator_final correlator_step] in *.
  rewrite Hb0, He0 in *. cbn [app fst] in *.
  by destruct (window_final_resolved source action1 action2 failAction bus_end
                 (window_open r) tr Hnr Hout) as [-> | ->].
Qed.

(** C14: The end of the bus with a window in flight: when the bus ends
    while a request still waits for its responses, the operator errors
    with [EmptyError] (the [first()] of the unanswered stream completes
    without a value), not with a completion, and nothing follows. *)
Theorem aggregate_end_in_flight e0 r tr e1 tr2 :
  bus_end e0 = false -> source e0 = Some r -> no_request source bus_end tr ->
  aggregate_output (e0 :: tr) = [] -> bus_end e1 = true ->
  aggregate_output (e0 :: tr ++ e1 :: tr2) = [OError EmptyError].
Proof.
  intros Hb0 He0 Hnr Hrun Hb1. unfold aggregate_output in *. aggregate_to_machine.
  rewrite app_comm_cons, correlator_run_app, Hrun, app_nil_l.
  cbn [correlator_run correlator_final correlator_step] in *.
  rewrite Hb0, He0 in *. cbn [app fst] in *.
  destruct (window_silent_open source action1 action2 failAction bus_end
              (window_open r) tr Hnr Hrun) as [w ->].
  cbn. rewrite Hb1. cbn. by rewrite correlator_run_failed.
Qed.

(** C15: Once a request has been joined, the end of the bus completes the
    output after the pair, and nothing follows. *)
Theorem aggregate_completes_after_join e0 r tr p e1 tr2 :
  bus_end e0 = false -> source e0 = Some r -> no_request source bus_end tr ->
  aggregate_output (e0 :: tr) = [ONext p] -> bus_end e1 = true ->
  aggregate_output (e0 :: tr ++ e1 :: tr2) = [ONext p; OComplete].
Proof.
  intros Hb0 He0 Hnr Hrun Hb1. unfold aggregate_output in *. aggregate_to_machine.
  pose proof (correlator_run_output source action1 action2 failAction bus_end
                (Listening None) (e0 :: tr) [] I eq_refl) as Hfin.
  rewrite app_comm_cons, correlator_run_app, Hrun. rewrite Hrun in Hfin.
  cbn [correlator_run correlator_final correlator_step] in *.
  rewrite Hb0, He0 in *. cbn [app fst] in *.
  destruct (window_final_resolved source action1 action2 failAction bus_end
              (window_open r) tr Hnr ltac:(by rewrite Hrun)) as [Hf|Hf];
    rewrite Hf in *.
  - cbn. rewrite Hb1. cbn. by rewrite correlator_run_completed.
  - destruct Hfin as (out0 & err & Heq & _).
    destruct out0 as [|? [|]]; by simplify_eq.
Qed.

(** A request without [correlationParams] is answered by no action. *)
Lemma correlated_no_params {X} `{!AggregatableAction X} (p : Ev -> option X) (r : Src) e :
  correlation_params r = None -> correlated p r e = None.
Proof.
  intros Hr. unfold correlated, select, filterAction.
  destruct (p e) as [x|]; [|done]. rewrite Hr. by destruct (correlation_params x).
Qed.

Lemma first_hit_never {X} (p : Ev -> option X) tr :
  (forall e, p e = None) -> first_hit p tr = None.
Proof. intros Hp. induction tr as [|e tr IH]; [done|]. cbn. by rewrite Hp, IH. Qed.

(** C20: Boundary: a request without [correlationParams] can never be
    answered ([filterAction] is false for it, line 24): its window waits,
    silent, whatever responses and failures arrive, until a new request
    replaces it or the bus ends. *)
Theorem aggregate_unparameterised_request_waits e0 r tr :
  bus_end e0 = false -> source e0 = Some r -> no_request source bus_end tr ->
  correlation_params r = None ->
  aggregate_output (e0 :: tr) = [].
Proof.
  intros Hb0 He0 Hnr Hr. request_to_outcome Hb0 He0.
  unfold window_outcome, join_time, fail_time, slot_hit; cbn [w_a1 w_a2 w_source window_open].
  rewrite (first_hit_never (correlated action1 r)),
    (first_hit_never (correlated failAction r)); [done|intros e..].
  - exact (correlated_no_params failAction r e Hr).
  - exact (correlated_no_params action1 r e Hr).
Qed.

End Properties.

Section SameStream.
Context {Ev Err Src A F : Type}.
Context `{!AggregatableAction Src} `{!AggregatableAction A}
        {HF : AggregatableAction F} `{!FailActionForAggregation F Err}.
Variable source : Ev -> option Src.
Variable action : Ev -> option A.
Variable failAction : Ev -> option F.
Variable bus_end : Ev -> bool.

(** C18: Ordering when both success streams are the same stream
    ([aggregate(a$, a$, fail$)], or two [ofType] views sharing an action
    type): the first correlated action, wherever it comes, fills both
    slots of [forkJoin] on the same event, so a single response completes
    the join as the pair [(a, a)], unless a correlated failure comes
    strictly before it; a failure on that very event loses. *)
Theorem aggregate_same_stream_join e0 r tr i a :
  bus_end e0 = false -> source e0 = Some r -> no_request source bus_end tr ->
  first_hit (correlated action r) tr = Some (i, a) ->
  (forall k f, first_hit (correlated failAction r) tr = Some (k, f) -> i <= k) ->
  aggregate_output (Err:=Err) source action action failAction bus_end (e0 :: tr) =
  [ONext (a, a)].
Proof.
  intros Hb0 He0 Hnr Ha Hf. unfold aggregate_output. aggregate_to_machine.
  cbn [correlator_run correlator_step]. rewrite Hb0, He0. cbn [app].
  rewrite window_run_outcome by done.
  unfold window_outcome, join_time, fail_time, slot_hit; cbn [w_a1 w_a2 w_source window_open].
  rewrite Ha, Nat.max_id. unfold decide_outcome.
  destruct (first_hit (correlated failAction r) tr) as [[k f]|]; [|done].
  by rewrite (proj2 (Nat.ltb_ge _ _) (Hf k f eq_refl)).
Qed.

End SameStream.
