(* ===== verification/OperatorSpec.v ===== *)
(** * OperatorSpec: a declarative specification of the whole operator

    What [source.pipe(aggregate(action1$, action2$, failAction$))] emits
    on a sequence of bus events, stated without any state: the events are
    cut into request segments (a request and the events after it up to
    the next request, aggregate.ts line 59: [switchMap] gives each request
    exactly those events), each segment resolves as its window
    specification [window_outcome] (Outcome.v) says, the outcomes are
    concatenated and cut after the first error, and the end of the bus
    adds [OComplete], or [EmptyError] when the last window is still
    waiting.  [aggregate_meets_spec] proves that the composed RxJS operator
    emits exactly this, on every sequence of events. *)

From stdpp Require Import base list option.
From S2P Require Import Prelude Rx Actions Correlator Outcome Aggregate Refinement Properties.

Section OperatorSpec.
Context {Ev Err Src A1 A2 F : Type}.
Context `{!AggregatableAction Src} `{!AggregatableAction A1}
        `{!AggregatableAction A2} {HF : AggregatableAction F}
        `{!FailActionForAggregation F Err}.
Variable source : Ev -> option Src.
Variable action1 : Ev -> option A1.
Variable action2 : Ev -> option A2.
Variable failAction : Ev -> option F.
Variable bus_end : Ev -> bool.

Local Abbreviation P := (Phase Src A1 A2).
Local Abbreviation Out := (Notification (option Err) (A1 * A2)).
Local Abbreviation crun := (correlator_run (Err:=Err) source action1 action2 failAction bus_end).
Local Abbreviation cfinal := (correlator_final (Err:=Err) source action1 action2 failAction bus_end).

(** [segments tr]: the events before the first request, the request
    segments, and whether the bus ends; events after the end of the bus
    are dropped. *)
Fixpoint segments (tr : list Ev) : list Ev * list (Src * list Ev) * bool :=
  match tr with
  | [] => ([], [], false)
  | e :: tr' =>
      if bus_end e then ([], [], true) else
      let '(q, ss, ended) := segments tr' in
      match source e with
      | Some r => ([], (r, q) :: ss, ended)
      | None => (e :: q, ss, ended)
      end
  end.

Definition segment_outcome (s : Src * list Ev) : list Out :=
  window_outcome action1 action2 failAction (window_open s.1) s.2.

Definition silent (out : list Out) : bool :=
  match out with [] => true | _ :: _ => false end.

(** Whether a window is still waiting after the segments [ss], given
    whether one was waiting before them. *)
Fixpoint open_after (o : bool) (ss : list (Src * list Ev)) : bool :=
  match ss with
  | [] => o
  | s :: ss' => open_after (silent (segment_outcome s)) ss'
  end.

(** The end of the bus: [EmptyError] from the [first()] of a waiting
    window, or the completion of the output. *)
Definition end_out (waiting : bool) : list Out :=
  if waiting then [OError EmptyError] else [OComplete].

Definition spec_tail (waiting : bool) (ss : list (Src * list Ev)) (ended : bool)
  : list Out :=
  fst (cut (concat (map segment_outcome ss) ++
            (if ended then end_out (open_after waiting ss) else []))).

Definition aggregate_spec (tr : list Ev) : list Out :=
  let '(_, ss, ended) := segments tr in spec_tail false ss ended.

(** ** Lemmas *)

Lemma cut_app_quiet (l m : list Out) :
  no_terminal l = true -> fst (cut (l ++ m)) = l ++ fst (cut m).
Proof.
  induction l as [|n l IH]; intros Hl; [done|].
  cbn in Hl. apply andb_true_iff in Hl as [Hn Hl].
  destruct n; cbn in *; try done. rewrite <- IH by done.
  by destruct (cut (l ++ m)).
Qed.

Lemma segments_quiet tr : no_request source bus_end (fst (fst (segments tr))).
Proof.
  induction tr as [|e tr IH]; cbn; [constructor|].
  destruct (bus_end e) eqn:Hb; [constructor|].
  destruct (segments tr) as [[q ss] ended]; cbn in *.
  destruct (source e) eqn:Hs; cbn; [constructor|by constructor].
Qed.

(** The run of the machine from any phase: first the events before the
    first request, seen by the current window, then the segments. *)
Lemma crun_segments tr (ph : P) :
  let '(q, ss, ended) := segments tr in
  crun ph tr = crun ph q ++
    match cfinal ph q with
    | Listening ow => spec_tail (bool_decide (is_Some ow)) ss ended
    | _ => []
    end.
Proof.
  revert ph. induction tr as [|e tr IH]; intros ph.
  { cbn. destruct ph; reflexivity. }
  cbn [segments]. destruct (bus_end e) eqn:Hb.
  { destruct ph as [[w|]| |]; cbn; rewrite ?Hb; cbn;
      rewrite ?correlator_run_failed, ?correlator_run_completed; done. }
  pose proof (segments_quiet tr) as Hq.
  specialize (IH ph) as IHph.
  destruct (segments tr) as [[q ss] ended]; cbn [fst] in Hq.
  destruct (source e) as [r|] eqn:Hs.
  - destruct ph as [ow| |]; cbn; rewrite ?Hb, ?Hs;
      [|by rewrite ?correlator_run_failed, ?correlator_run_completed..].
    rewrite (IH (Listening (Some (window_open r)))). cbn [app].
    unfold spec_tail. cbn [map concat open_after]. rewrite <- app_assoc.
    assert (segment_outcome (r, q) = crun (Listening (Some (window_open r))) q) as ->
      by (symmetry; by apply window_run_outcome).
    destruct (window_final_shape source action1 action2 failAction bus_end
                (window_open r) q Hq eq_refl)
      as [[w' [-> ->]] | [[-> [p ->]] | [-> [err ->]]]].
    + done.
    + by rewrite (cut_app_quiet [ONext p]).
    + by rewrite app_nil_r.
  - cbn [correlator_run correlator_final].
    destruct (correlator_step source action1 action2 failAction bus_end ph e) as [ph1 o].
    rewrite (IH ph1), app_assoc. cbn [fst]. done.
Qed.

(** C19: Refinement of the declarative specification: on every sequence
    of bus events, the operator composed from the RxJS operators emits
    exactly [aggregate_spec]: each request resolves on the events up to
    the next request as its window specification says, the outcomes come
    in request order and stop after the first error, and the end of the
    bus completes the output or, with a window still waiting, errors with
    [EmptyError]. *)
Theorem aggregate_meets_spec tr :
  aggregate_output (Err:=Err) source action1 action2 failAction bus_end tr =
  aggregate_spec tr.
Proof.
  unfold aggregate_output. aggregate_to_machine.
  pose proof (crun_segments tr (Listening None)) as H.
  pose proof (segments_quiet tr) as Hq.
  unfold aggregate_spec. destruct (segments tr) as [[q ss] ended]. cbn [fst] in Hq.
  by rewrite H, crun_idle, correlator_final_idle.
Qed.

End OperatorSpec.
