(* ===== verification/Scenarios.v ===== *)
(** * Scenarios: the operator on an NgRx action bus

    The four streams of [aggregate] taken, as in an NgRx effect, from one
    [Actions] bus with [ofType]: the request [LOAD], the responses
    [LOAD_A_DONE] and [LOAD_B_DONE], the failure [LOAD_FAILED].  The
    scenarios of the specification, and one instance of each property
    whose statement has hypotheses, evaluated on concrete actions. *)

From stdpp Require Import base list option strings.
From S2P Require Import Prelude Rx Actions Correlator Semantics Outcome Aggregate ValueTypes Refinement Properties OperatorSpec.

Local Open Scope string_scope.

Definition params (id : string) (parent : option string) :=
  Some (mkCorrelationParams (Some id) parent).

Definition load (id : string) := mkStoreAction "LOAD" (params id None) None.
Definition a_done (id : string) :=
  mkStoreAction "LOAD_A_DONE" (params id (Some "LOAD")) None.
Definition b_done (id : string) :=
  mkStoreAction "LOAD_B_DONE" (params id (Some "LOAD")) None.
Definition load_failed (id : string) (err : string) :=
  mkStoreAction "LOAD_FAILED" (params id (Some "LOAD")) (Some err).

(** What the subscribers of the [Actions] stream of [@ngrx/effects]
    receive: a dispatched action, or the completion of the stream. *)
Inductive BusEvent : Type :=
| Dispatch (a : StoreAction)
| BusComplete.

(** [actions$.pipe(ofType(t))] on one event of the bus. *)
Definition on (t : string) (ev : BusEvent) : option StoreAction :=
  match ev with Dispatch a => ofType t a | BusComplete => None end.

Definition bus_complete (ev : BusEvent) : bool :=
  match ev with BusComplete => true | Dispatch _ => false end.

Abbreviation dispatch := (map Dispatch).

Definition onLoad := on "LOAD".
Definition onA := on "LOAD_A_DONE".
Definition onB := on "LOAD_B_DONE".
Definition onFail := on "LOAD_FAILED".

(** [actions$.pipe(ofType(LOAD), aggregate(a$, b$, fail$))] *)
Definition load_effect := aggregate_hot (Err:=string) onLoad onA onB onFail bus_complete.

Definition abc_window : Window StoreAction StoreAction StoreAction :=
  window_open (load "abc").

(** Actions without a correlation id. *)
Definition noid (parent : option string) :=
  Some (mkCorrelationParams None parent).
Definition load_noid := mkStoreAction "LOAD" (noid None) None.
Definition a_done_noid := mkStoreAction "LOAD_A_DONE" (noid (Some "LOAD")) None.
Definition b_done_noid := mkStoreAction "LOAD_B_DONE" (noid (Some "LOAD")) None.

(** ** The scenarios of the specification *)

(** A_DONE and B_DONE for "abc" arrive in either order: one output, the
    pair in channel order. *)
Example scenario_join_in_order :
  run load_effect (dispatch [load "abc"; a_done "abc"; b_done "abc"]) =
  [ONext (a_done "abc", b_done "abc")].
Proof. reflexivity. Qed.

Example scenario_join_reversed :
  run load_effect (dispatch [load "abc"; b_done "abc"; a_done "abc"]) =
  [ONext (a_done "abc", b_done "abc")].
Proof. reflexivity. Qed.

(** LOAD_FAILED before B_DONE: one output, the failure's error; the late
    B_DONE produces nothing. *)
Example scenario_fail_fast :
  run load_effect (dispatch [load "abc"; a_done "abc"; load_failed "abc" "E"; b_done "abc"]) =
  [OError (Thrown (Some "E"))].
Proof. reflexivity. Qed.

(** Two overlapping requests: the second discards the first, which never
    gets its outcome, although both of its responses arrive. *)
Example scenario_overlapping_requests :
  run load_effect (dispatch [load "abc"; load "def"; a_done "abc"; b_done "abc"; a_done "def"; b_done "def"]) =
  [ONext (a_done "def", b_done "def")].
Proof. reflexivity. Qed.

(** A failure of one request ends the output: a later request whose
    responses all arrive gets no outcome. *)
Example scenario_failure_ends_stream :
  run load_effect (dispatch [load "abc"; load_failed "abc" "E"; load "def"; a_done "def"; b_done "def"]) =
  [OError (Thrown (Some "E"))].
Proof. reflexivity. Qed.

(** ** Instances of the properties *)

Local Abbreviation effect_output :=
  (aggregate_output (Err:=string) onLoad onA onB onFail bus_complete).

Local Abbreviation crun_load :=
  (correlator_run (Err:=string) onLoad onA onB onFail bus_complete).

Abbreviation D := Dispatch.

Lemma aggregate_request_outcome_witness :
  effect_output (D (load "abc") :: dispatch [b_done "abc"; load_failed "xyz" "E"; a_done "abc"]) =
  window_outcome (Err:=string) onA onB onFail abc_window
    (dispatch [b_done "abc"; load_failed "xyz" "E"; a_done "abc"]).
Proof.
  apply (aggregate_request_outcome onLoad onA onB onFail bus_complete (D (load "abc")) (load "abc"));
    [reflexivity | reflexivity | repeat constructor].
Defined.

Lemma aggregate_join_witness :
  effect_output (D (load "abc") :: dispatch [b_done "abc"; a_done "abc"]) =
  [ONext (a_done "abc", b_done "abc")].
Proof.
  apply (aggregate_join onLoad onA onB onFail bus_complete (D (load "abc")) (load "abc")
           (dispatch [b_done "abc"; a_done "abc"]) 1 (a_done "abc") 0 (b_done "abc"));
    [reflexivity | reflexivity | repeat constructor | reflexivity | reflexivity |].
  intros k f Hf. discriminate Hf.
Defined.

Lemma aggregate_fail_fast_witness :
  effect_output (D (load "abc") :: dispatch [a_done "abc"; load_failed "abc" "E"; b_done "abc"]) =
  [OError (Thrown (Some "E"))].
Proof.
  eapply eq_trans.
  { apply (aggregate_fail_fast onLoad onA onB onFail bus_complete (D (load "abc")) (load "abc")
             (dispatch [a_done "abc"; load_failed "abc" "E"; b_done "abc"])
             1 (load_failed "abc" "E"));
      [reflexivity | reflexivity | repeat constructor | reflexivity |].
    intros i1 a i2 b H1 H2. injection H1 as <- <-. injection H2 as <- <-. cbn. lia. }
  reflexivity.
Defined.

Lemma aggregate_waits_witness :
  effect_output (D (load "abc") :: dispatch [a_done "abc"; b_done "xyz"]) = [].
Proof.
  apply (aggregate_waits onLoad onA onB onFail bus_complete (D (load "abc")) (load "abc"));
    [reflexivity | reflexivity | repeat constructor | reflexivity | right; reflexivity].
Defined.

Lemma aggregate_at_most_one_witness :
  length (effect_output (D (load "abc") :: dispatch [a_done "abc"; b_done "abc"; b_done "abc";
                           load_failed "abc" "E"])) <= 1.
Proof.
  apply (aggregate_at_most_one onLoad onA onB onFail bus_complete (D (load "abc")) (load "abc"));
    [reflexivity | reflexivity | repeat constructor].
Defined.

(** Actions answering another request ("xyz") or of another parent type
    in place of each other: same output. *)
Lemma aggregate_isolation_witness :
  effect_output (D (load "abc") :: dispatch [a_done "xyz"; a_done "abc"; b_done "abc"]) =
  effect_output (D (load "abc") :: dispatch [load_failed "xyz" "E"; a_done "abc"; b_done "abc"]).
Proof.
  apply (aggregate_isolation onLoad onA onB onFail bus_complete (D (load "abc")) (load "abc"));
    [reflexivity | reflexivity | repeat constructor | repeat constructor
    | reflexivity | reflexivity | reflexivity].
Defined.

Lemma aggregate_switch_discards_witness :
  effect_output (D (load "abc") :: dispatch [a_done "abc"] ++
                 D (load "def") :: dispatch [b_done "abc"; a_done "def"; b_done "def"]) =
  effect_output (D (load "def") :: dispatch [b_done "abc"; a_done "def"; b_done "def"]).
Proof.
  apply (aggregate_switch_discards onLoad onA onB onFail bus_complete
           (D (load "abc")) (load "abc") (dispatch [a_done "abc"]) (D (load "def")) (load "def")
           (dispatch [b_done "abc"; a_done "def"; b_done "def"])); reflexivity.
Defined.

Lemma filterAction_undefined_ids_witness :
  filterAction load_noid a_done_noid = true.
Proof.
  apply (filterAction_undefined_ids load_noid a_done_noid
           (mkCorrelationParams None (Some "LOAD")) (mkCorrelationParams None None));
    reflexivity.
Defined.

(** A request without correlation id is answered by responses without
    one: the two uncorrelated responses are joined. *)
Example scenario_undefined_ids_join :
  effect_output (dispatch [load_noid; a_done_noid; b_done_noid]) =
  [ONext (a_done_noid, b_done_noid)].
Proof. reflexivity. Qed.

Lemma filterAction_no_params_witness :
  filterAction (mkStoreAction "LOAD" None None) (a_done "abc") = false.
Proof. apply filterAction_no_params. right. reflexivity. Defined.

(** While the window of "abc" is open it holds its three subscriptions,
    then two once A_DONE has closed [a1$]; after the join, none. *)
Example scenario_open_window_subscriptions :
  live_subscriptions (run_state load_effect (dispatch [load "abc"])) = 3 /\
  live_subscriptions (run_state load_effect (dispatch [load "abc"; a_done "abc"])) = 2.
Proof. split; reflexivity. Qed.

Lemma aggregate_releases_subscriptions_witness :
  live_subscriptions (run_state load_effect
                        (D (load "abc") :: dispatch [a_done "abc"; b_done "abc"])) = 0.
Proof.
  apply (aggregate_releases_subscriptions onLoad onA onB onFail bus_complete
           (D (load "abc")) (load "abc"));
    [reflexivity | reflexivity | repeat constructor |].
  intros H. vm_compute in H. discriminate H.
Defined.

(** ** The end of the bus *)

(** The bus ends with no request waiting: the output completes. *)
Example scenario_end_idle :
  run load_effect (dispatch [load "abc"; a_done "abc"; b_done "abc"] ++ [BusComplete]) =
  [ONext (a_done "abc", b_done "abc"); OComplete].
Proof. reflexivity. Qed.

(** The bus ends while "abc" waits for B_DONE: [EmptyError]. *)
Example scenario_end_in_flight :
  run load_effect (dispatch [load "abc"; a_done "abc"] ++ [BusComplete]) =
  [OError EmptyError].
Proof. reflexivity. Qed.

Local Abbreviation LPhase := (Phase StoreAction StoreAction StoreAction).
Local Abbreviation LOut := (Notification (option string) (StoreAction * StoreAction)).

Lemma correlator_steps_invariant_witness :
  phase_wf (Failed : LPhase) /\
  phase_output (Failed : LPhase) ([OError (Thrown (Some "E"))] : list LOut).
Proof.
  apply (correlator_steps_invariant onLoad onA onB onFail bus_complete
           (dispatch [load "abc"; a_done "abc"; load_failed "abc" "E"])).
  exact (correlator_run_steps onLoad onA onB onFail bus_complete (Listening None)
           (dispatch [load "abc"; a_done "abc"; load_failed "abc" "E"])).
Defined.

Lemma aggregate_end_in_flight_witness :
  effect_output (D (load "abc") :: dispatch [a_done "abc"] ++
                 BusComplete :: dispatch [b_done "abc"]) = [OError EmptyError].
Proof.
  apply (aggregate_end_in_flight onLoad onA onB onFail bus_complete (D (load "abc")) (load "abc"));
    [reflexivity | reflexivity | repeat constructor | reflexivity | reflexivity].
Defined.

Lemma aggregate_completes_after_join_witness :
  effect_output (D (load "abc") :: dispatch [b_done "abc"; a_done "abc"] ++
                 BusComplete :: dispatch [load "def"]) =
  [ONext (a_done "abc", b_done "abc"); OComplete].
Proof.
  apply (aggregate_completes_after_join onLoad onA onB onFail bus_complete
           (D (load "abc")) (load "abc"));
    [reflexivity | reflexivity | repeat constructor | reflexivity | reflexivity].
Defined.

(** A failure action without [error]: the operator errors with
    [undefined]. *)
Example scenario_fail_without_error :
  run load_effect
    (dispatch [load "abc"; mkStoreAction "LOAD_FAILED" (params "abc" (Some "LOAD")) None]) =
  [OError (Thrown None)].
Proof. reflexivity. Qed.

(** [aggregate(a$, a$, fail$)]: one A_DONE fills both slots. *)
Lemma aggregate_same_stream_join_witness :
  aggregate_output (Err:=string) onLoad onA onA onFail bus_complete
    (D (load "abc") :: dispatch [b_done "abc"; a_done "abc"; load_failed "abc" "E"]) =
  [ONext (a_done "abc", a_done "abc")].
Proof.
  apply (aggregate_same_stream_join onLoad onA onFail bus_complete
           (D (load "abc")) (load "abc")
           (dispatch [b_done "abc"; a_done "abc"; load_failed "abc" "E"]) 1 (a_done "abc"));
    [reflexivity | reflexivity | repeat constructor | reflexivity |].
  intros k f Hf. injection Hf as <- _. lia.
Defined.

(** ** The declarative specification, evaluated *)

(** Two overlapping requests, the second answered, then the end of the
    bus: the specification and the operator agree. *)
Example scenario_spec_overlapping :
  aggregate_spec (Err:=string) onLoad onA onB onFail bus_complete
    (dispatch [load "abc"; a_done "abc"; load "def"; b_done "abc"; a_done "def";
               b_done "def"] ++ [BusComplete]) =
  [ONext (a_done "def", b_done "def"); OComplete] /\
  run load_effect
    (dispatch [load "abc"; a_done "abc"; load "def"; b_done "abc"; a_done "def";
               b_done "def"] ++ [BusComplete]) =
  [ONext (a_done "def", b_done "def"); OComplete].
Proof. split; reflexivity. Qed.

(** A request without [correlationParams] is never answered. *)
Lemma aggregate_unparameterised_request_waits_witness :
  effect_output (D (mkStoreAction "LOAD" None None) ::
                 dispatch [a_done "abc"; b_done "abc"; load_failed "abc" "E"]) = [].
Proof.
  apply (aggregate_unparameterised_request_waits onLoad onA onB onFail bus_complete
           (D (mkStoreAction "LOAD" None None)) (mkStoreAction "LOAD" None None));
    [reflexivity | reflexivity | repeat constructor | reflexivity].
Defined.

(** The window of "abc" on the bus emits the pair of its responses, both
    correlated with it. *)
Lemma window_values_correlated_witness :
  filterAction (load "abc") (a_done "abc") = true /\
  filterAction (load "abc") (b_done "abc") = true.
Proof.
  apply (window_values_correlated (Err:=string) (hot bus_complete onA)
           (hot bus_complete onB) (hot bus_complete onFail) (load "abc")
           (dispatch [a_done "abc"; b_done "abc"]) (a_done "abc") (b_done "abc")).
  vm_compute. left.
Defined.
